(** * Apartment reservation manager: the views of [app.py]

    The Flask application keeps one table of reservations and two session
    flags.  This development embeds the view functions of [app.py] as
    functions over an explicit world (session, emitted notices, stored table,
    ORM unit of work) and proves the access-control, validation and listing
    properties of the application's specification about them.

    What the views take from the Python runtime and from the storage engine
    ([int], [datetime.strptime], [str] of an exception, the row id SQLite
    draws when its counter is exhausted) is a parameter of every request:
    the theorems hold whatever these are. *)

From Stdlib Require Import ZArith Lia Ascii.
From stdpp Require Import base option list strings gmap sorting.

Local Open Scope Z_scope.

(** ** Calendar dates ([datetime.date]) *)

Record date := Date { year : Z; month : Z; day : Z }.

#[global] Instance date_eq_dec : EqDecision date.
Proof. solve_decision. Defined.

Definition is_leap (y : Z) : bool :=
  (y mod 4 =? 0) && (negb (y mod 100 =? 0) || (y mod 400 =? 0)).

Definition days_in_month (y m : Z) : Z :=
  if m =? 2 then (if is_leap y then 29 else 28)
  else if (m =? 4) || (m =? 6) || (m =? 9) || (m =? 11) then 30
  else 31.

(** The range check of the [date] constructor: years [MINYEAR..MAXYEAR],
    months [1..12], days within the month. *)
Definition valid_date (d : date) : bool :=
  (1 <=? year d) && (year d <=? 9999) &&
  (1 <=? month d) && (month d <=? 12) &&
  (1 <=? day d) && (day d <=? days_in_month (year d) (month d)).

(** [date(y, m, d)], which raises [ValueError] outside the range. *)
Definition date_new (y m d : Z) : option date :=
  let r := Date y m d in if valid_date r then Some r else None.

(** [a <= b] on dates compares (year, month, day) in that order. *)
Definition date_leb (a b : date) : bool :=
  (year a <? year b) ||
  ((year a =? year b) &&
   ((month a <? month b) || ((month a =? month b) && (day a <=? day b)))).

Definition date_le (a b : date) : Prop := date_leb a b = true.

#[global] Instance date_le_dec : RelDecision date_le.
Proof. intros a b. unfold date_le. apply _. Defined.

(** ** Decimal text *)

Definition digit_val (c : ascii) : option Z :=
  let n := Z.of_nat (nat_of_ascii c) in
  if (48 <=? n) && (n <=? 57) then Some (n - 48) else None.

Definition digit_char (d : Z) : ascii := ascii_of_nat (Z.to_nat (48 + d)).

Definition is_digit (c : ascii) : bool :=
  match digit_val c with Some _ => true | None => false end.

(** The [w] low decimal digits of [n], least significant first. *)
Fixpoint digits_rev (w : nat) (n : Z) : list ascii :=
  match w with
  | O => []
  | S w' => digit_char (n mod 10) :: digits_rev w' (n / 10)
  end.

(** ["%0wd" % n] for [0 <= n < 10^w], the only range [isoformat] uses it on. *)
Definition zero_pad (w : nat) (n : Z) : string :=
  String.string_of_list_ascii (rev (digits_rev w n)).

(** [date.isoformat()]: ["%04d-%02d-%02d" % (year, month, day)]. *)
Definition isoformat (d : date) : string :=
  String.append (zero_pad 4 (year d))
    (String "-" (String.append (zero_pad 2 (month d))
       (String "-" (zero_pad 2 (day d))))).

(** *** A reading of [datetime.strptime(s, '%Y-%m-%d')] on ASCII text

    [_strptime] turns the format into the regular expression
    [(\d\d\d\d)-(1[0-2]|0[1-9]|[1-9])-(3[01]|[12]\d|0[1-9]|[1-9]| [1-9])],
    matches it at the start of the text, rejects text left over after the
    match, and builds the date, which checks the ranges.  [ascii_strptime]
    follows this for the ASCII digits only: it is a sample of the parser,
    used for examples, and gives a date only where [datetime.strptime]
    gives the same one.  The views do not use it: they take the parser of
    the runtime from their environment. *)

Definition in_range (lo hi : Z) (c : ascii) : option Z :=
  match digit_val c with
  | Some v => if (lo <=? v) && (v <=? hi) then Some v else None
  | None => None
  end.

(** The month alternatives, each followed by the literal dash. *)
Definition match_month (s : string) : option (Z * string) :=
  let two :=
    match s with
    | String a (String b (String "-" r)) =>
        match a, in_range 0 2 b, in_range 1 9 b with
        | "1"%char, Some v, _ => Some (10 + v, r)
        | "0"%char, _, Some v => Some (v, r)
        | _, _, _ => None
        end
    | _ => None
    end in
  match two with
  | Some res => Some res
  | None =>
      match s with
      | String a (String "-" r) =>
          match in_range 1 9 a with Some v => Some (v, r) | None => None end
      | _ => None
      end
  end.

(** The day alternatives, tried in the order of the expression; the first
    that matches a prefix is taken. *)
Definition match_day (s : string) : option (Z * string) :=
  match s with
  | String a r1 =>
      let two :=
        match r1 with
        | String b r2 =>
            match a, in_range 0 1 b, in_range 0 9 b, in_range 1 9 b with
            | "3"%char, Some v, _, _ => Some (30 + v, r2)
            | "1"%char, _, Some v, _ => Some (10 + v, r2)
            | "2"%char, _, Some v, _ => Some (20 + v, r2)
            | "0"%char, _, _, Some v => Some (v, r2)
            | _, _, _, _ => None
            end
        | EmptyString => None
        end in
      match two with
      | Some res => Some res
      | None =>
          match in_range 1 9 a with
          | Some v => Some (v, r1)
          | None =>
              match a, r1 with
              | " "%char, String b r2 =>
                  match in_range 1 9 b with
                  | Some v => Some (v, r2)
                  | None => None
                  end
              | _, _ => None
              end
          end
      end
  | EmptyString => None
  end.

Definition ascii_strptime (s : string) : option date :=
  match s with
  | String y3 (String y2 (String y1 (String y0 (String "-" r)))) =>
      match digit_val y3, digit_val y2, digit_val y1, digit_val y0 with
      | Some a, Some b, Some c, Some d =>
          match match_month r with
          | Some (m, r') =>
              match match_day r' with
              | Some (dd, EmptyString) =>
                  date_new (((a * 10 + b) * 10 + c) * 10 + d) m dd
              | _ => None
              end
          | None => None
          end
      | _, _, _, _ => None
      end
  | _ => None
  end.

(** *** A reading of [int(s)] on ASCII text

    Surrounding blanks are dropped, one sign is allowed, and the digits may
    be grouped by single underscores.  [ascii_int] follows this for the
    ASCII digits and the six ASCII blanks, on texts within the length that
    every version of [int] converts: like [ascii_strptime] it is a sample,
    and gives a number only where [int] gives the same one. *)

Definition is_space (c : ascii) : bool :=
  let n := Z.of_nat (nat_of_ascii c) in
  ((9 <=? n) && (n <=? 13)) || (n =? 32).

Fixpoint lstrip (l : list ascii) : list ascii :=
  match l with
  | c :: r => if is_space c then lstrip r else l
  | [] => []
  end.

Definition strip (l : list ascii) : list ascii := rev (lstrip (rev (lstrip l))).

(** [after_digit] tells whether the character before was a digit: an
    underscore is accepted only between two digits. *)
Fixpoint int_digits (acc : Z) (after_digit : bool) (l : list ascii) : option Z :=
  match l with
  | [] => if after_digit then Some acc else None
  | c :: r =>
      match digit_val c with
      | Some v => int_digits (acc * 10 + v) true r
      | None =>
          if bool_decide (c = "_"%char) && after_digit
          then int_digits acc false r
          else None
      end
  end.

Definition ascii_int (s : string) : option Z :=
  let l := strip (String.list_ascii_of_string s) in
  if (4300 <? Z.of_nat (length l)) then None
  else
    match l with
    | "-"%char :: r => Z.opp <$> int_digits 0 false r
    | "+"%char :: r => int_digits 0 false r
    | l => int_digits 0 false l
    end.

(** ** The data model *)

(** A [Reservation] object.  [id] and [created_at] are [None] on an object
    that has not been inserted yet; the columns without [nullable=False]
    may hold [None]. *)
Record Reservation := mkReservation {
  id : option Z;
  guest_name : string;
  platform : string;
  check_in : date;
  check_out : date;
  adults : option Z;
  children : option Z;
  special_requests : option string;
  notes : option string;
  created_at : option Z
}.

#[global] Instance Reservation_eq_dec : EqDecision Reservation.
Proof. solve_decision. Defined.

Definition set_id v (r : Reservation) : Reservation :=
  mkReservation v (guest_name r) (platform r) (check_in r) (check_out r)
    (adults r) (children r) (special_requests r) (notes r) (created_at r).
Definition set_guest_name v (r : Reservation) : Reservation :=
  mkReservation (id r) v (platform r) (check_in r) (check_out r)
    (adults r) (children r) (special_requests r) (notes r) (created_at r).
Definition set_platform v (r : Reservation) : Reservation :=
  mkReservation (id r) (guest_name r) v (check_in r) (check_out r)
    (adults r) (children r) (special_requests r) (notes r) (created_at r).
Definition set_check_in v (r : Reservation) : Reservation :=
  mkReservation (id r) (guest_name r) (platform r) v (check_out r)
    (adults r) (children r) (special_requests r) (notes r) (created_at r).
Definition set_check_out v (r : Reservation) : Reservation :=
  mkReservation (id r) (guest_name r) (platform r) (check_in r) v
    (adults r) (children r) (special_requests r) (notes r) (created_at r).
Definition set_adults v (r : Reservation) : Reservation :=
  mkReservation (id r) (guest_name r) (platform r) (check_in r) (check_out r)
    v (children r) (special_requests r) (notes r) (created_at r).
Definition set_children v (r : Reservation) : Reservation :=
  mkReservation (id r) (guest_name r) (platform r) (check_in r) (check_out r)
    (adults r) v (special_requests r) (notes r) (created_at r).
Definition set_special_requests v (r : Reservation) : Reservation :=
  mkReservation (id r) (guest_name r) (platform r) (check_in r) (check_out r)
    (adults r) (children r) v (notes r) (created_at r).
Definition set_notes v (r : Reservation) : Reservation :=
  mkReservation (id r) (guest_name r) (platform r) (check_in r) (check_out r)
    (adults r) (children r) (special_requests r) v (created_at r).
Definition set_created_at v (r : Reservation) : Reservation :=
  mkReservation (id r) (guest_name r) (platform r) (check_in r) (check_out r)
    (adults r) (children r) (special_requests r) (notes r) v.

(** JSON values, as far as [jsonify] is given them here. *)
#[local] Unset Elimination Schemes.
Inductive json :=
  | JNull
  | JInt (n : Z)
  | JStr (s : string)
  | JList (l : list json)
  | JDict (kvs : list (string * json)).
#[local] Set Elimination Schemes.

Definition json_int (o : option Z) : json :=
  match o with Some n => JInt n | None => JNull end.
Definition json_str (o : option string) : json :=
  match o with Some s => JStr s | None => JNull end.

Definition to_dict (self : Reservation) : list (string * json) :=
  [ ("id", json_int (id self));
    ("guest_name", JStr (guest_name self));
    ("platform", JStr (platform self));
    ("check_in", JStr (isoformat (check_in self)));
    ("check_out", JStr (isoformat (check_out self)));
    ("adults", json_int (adults self));
    ("children", json_int (children self));
    ("special_requests", json_str (special_requests self));
    ("notes", json_str (notes self)) ].

(** ** Requests, responses and the world *)

Inductive http_method := GET | HEAD | POST.

#[global] Instance http_method_eq_dec : EqDecision http_method.
Proof. solve_decision. Defined.

(** The targets of [url_for]. *)
Inductive endpoint :=
  | EpAdminLogin
  | EpIndex
  | EpLoginSelect
  | EpAddReservation
  | EpEditReservation (id : Z).

(** The keyword arguments a view hands to [render_template]. *)
Inductive template_args :=
  | NoArgs
  | ListingArgs (reservations : list Reservation)
                (is_readonly is_admin : bool) (today : date)
  | ReservationArg (reservation : Reservation).

Inductive response :=
  | Redirect (target : endpoint)
  | Render (template : string) (args : template_args)
  | Jsonify (body : json)
  | Abort (status : Z).

(** The exceptions of the libraries, by class; [ValueError] carries the
    text that did not parse. *)
Inductive exn :=
  | BadRequestKeyError (key : string)
  | ValueError (text : string)
  | OverflowError
  | OperationalError
  | InvalidRequestError
  | NotFound.

(** Sample texts for [str(e)], used in the examples; the views take the
    texts of the runtime from their environment. *)
Definition sample_str (e : exn) : string :=
  match e with
  | BadRequestKeyError _ => "400 Bad Request"
  | ValueError text => "could not parse: " +:+ text
  | OverflowError => "Python int too large to convert to SQLite INTEGER"
  | OperationalError => "database or disk is full"
  | InvalidRequestError => "Instance is not persistent within this Session"
  | NotFound => "404 Not Found"
  end.

(** The status Flask answers with when a view lets an exception escape. *)
Definition status_of_exn (e : exn) : Z :=
  match e with
  | NotFound => 404
  | BadRequestKeyError _ => 400
  | _ => 500
  end.

(** What a view can touch.  Flask keeps two things in the session cookie:
    the keys the views read and write, and, under the key [_flashes], the
    notices given to [flash].  The world holds the two apart: [session] is
    the part of the keys of the views, [flashes] the list under [_flashes],
    so [flash] changes [flashes] and leaves [session] alone (the templates
    that show and drop the notices are not part of this model).  Beside
    them are the stored table, in the order of its row ids, and the ORM
    session [db.session] (the objects it has loaded, by primary key, and
    the pending inserts and deletes). *)
Record world := World {
  session : gmap string bool;
  flashes : list (string * string);
  table : list Reservation;
  loaded : gmap Z Reservation;
  added : list Reservation;
  deleted : list Z
}.

(** What a view reads and cannot change: the configured password, the
    clock, the method and form of the request, and what the runtime and
    the storage engine supply: [int] and [datetime.strptime] on a text
    ([None] where they raise [ValueError]), [str] of an exception, and the
    row id SQLite draws at random once its largest id is in use. *)
Record env := Env {
  ADMIN_PASSWORD : string;
  today : date;
  utcnow : Z;
  method : http_method;
  form : gmap string string;
  int : string → option Z;
  strptime : string → option date;
  str : exn → string;
  rowid : Z
}.

Definition with_session (f : gmap string bool → gmap string bool) (w : world) : world :=
  World (f (session w)) (flashes w) (table w) (loaded w) (added w) (deleted w).
Definition with_flashes (f : list (string * string) → list (string * string))
    (w : world) : world :=
  World (session w) (f (flashes w)) (table w) (loaded w) (added w) (deleted w).
Definition with_loaded (f : gmap Z Reservation → gmap Z Reservation) (w : world) : world :=
  World (session w) (flashes w) (table w) (f (loaded w)) (added w) (deleted w).
Definition with_added (f : list Reservation → list Reservation) (w : world) : world :=
  World (session w) (flashes w) (table w) (loaded w) (f (added w)) (deleted w).
Definition with_deleted (f : list Z → list Z) (w : world) : world :=
  World (session w) (flashes w) (table w) (loaded w) (added w) (f (deleted w)).

(** ** Views as computations

    A view reads the environment, changes the world, and returns a value or
    raises.  What a computation did to the world before it raised stays
    done, as in Python. *)

Definition M (A : Type) : Type := env → world → (exn + A) * world.

#[global] Instance M_ret : MRet M := λ A a _ w, (inr a, w).
#[global] Instance M_bind : MBind M := λ A B f m e w,
  match m e w with
  | (inr a, w') => f a e w'
  | (inl x, w') => (inl x, w')
  end.

Definition raise {A} (x : exn) : M A := λ _ w, (inl x, w).

(** [try: body except Exception as e: handler(e)] *)
Definition try_except {A} (body : M A) (handler : exn → M A) : M A := λ e w,
  match body e w with
  | (inl x, w') => handler x e w'
  | r => r
  end.

Definition ask {A} (f : env → A) : M A := λ e w, (inr (f e), w).

(** [session.get(key)] and [session.get(key, False)]; the flags are only
    ever stored as [True], and an absent key reads as false. *)
Definition session_get (key : string) : M bool := λ _ w,
  (inr (default false (session w !! key)), w).
(** [session[key] = True] *)
Definition session_set (key : string) (v : bool) : M unit := λ _ w,
  (inr (), with_session <[key := v]> w).
(** [session.pop(key, None)] *)
Definition session_pop (key : string) : M unit := λ _ w,
  (inr (), with_session (delete key) w).

(** [flash(message, category)]: one more notice in the list Flask keeps
    under [session['_flashes']], which is the field [flashes]. *)
Definition flash (message category : string) : M unit := λ _ w,
  (inr (), with_flashes (λ l, l ++ [(message, category)]) w).

(** [request.form[key]] *)
Definition form_item (key : string) : M string := λ e w,
  match form e !! key with
  | Some v => (inr v, w)
  | None => (inl (BadRequestKeyError key), w)
  end.
(** [request.form.get(key, dflt)] *)
Definition form_get (key dflt : string) : M string := λ e w,
  (inr (default dflt (form e !! key)), w).

(** The date [datetime.strptime(s, '%Y-%m-%d').date()] gives with the
    parser [p]: the value is built by the constructor, which raises outside
    the calendar, so a date that comes out is a date of the calendar. *)
Definition read_date (p : string → option date) (s : string) : option date :=
  d ← p s; date_new (year d) (month d) (day d).

Definition strptime_date (s : string) : M date := λ e w,
  match read_date (strptime e) s with
  | Some d => (inr d, w)
  | None => (inl (ValueError s), w)
  end.

(** [int(s)] *)
Definition int_of (s : string) : M Z := λ e w,
  match int e s with
  | Some n => (inr n, w)
  | None => (inl (ValueError s), w)
  end.

(** [str(e)] *)
Definition str_of (x : exn) : M string := λ e w, (inr (str e x), w).

(** *** The ORM session

    Objects are handled through their primary key, under which
    [db.session] holds the one in-memory object per row.  Writing an
    attribute changes that object only; the table changes at
    [db.session.commit()]. *)

Definition has_id (i : Z) (r : Reservation) : bool := bool_decide (id r = Some i).

(** SQLite stores an INTEGER in 64 bits; a larger number makes the
    statement fail. *)
Definition int64 (o : option Z) : bool :=
  match o with
  | Some n => (- 2 ^ 63 <=? n) && (n <? 2 ^ 63)
  | None => true
  end.

(** [Reservation.query.get_or_404(id)].  An id that is not stored gives
    404, unless it does not fit the engine: then the lookup itself fails.
    (No stored row has such an id.) *)
Definition get_or_404 (i : Z) : M Z := λ _ w,
  match loaded w !! i with
  | Some _ => (inr i, w)
  | None =>
      match find (has_id i) (table w) with
      | Some r => (inr i, with_loaded <[i := r]> w)
      | None => if int64 (Some i) then (inl NotFound, w) else (inl OverflowError, w)
      end
  end.

(** Reading the object behind a reference. *)
Definition deref (ref : Z) : M Reservation := λ _ w,
  match loaded w !! ref with
  | Some r => (inr r, w)
  | None => (inl InvalidRequestError, w)
  end.

(** [reservation.attr = v], with [upd] the change to the record. *)
Definition setattr (ref : Z) (upd : Reservation → Reservation) : M unit := λ _ w,
  (inr (), with_loaded (alter upd ref) w).

(** [db.session.add(r)] and [db.session.delete(reservation)] *)
Definition db_add (r : Reservation) : M unit := λ _ w,
  (inr (), with_added (λ l, l ++ [r]) w).
Definition db_delete (ref : Z) : M unit := λ _ w,
  (inr (), with_deleted (λ l, l ++ [ref]) w).

Definition storable (r : Reservation) : bool := int64 (adults r) && int64 (children r).

(** The largest row id of SQLite, and the largest id in use. *)
Definition max_rowid : Z := 2 ^ 63 - 1.

Definition largest_id (t : list Reservation) : option Z :=
  match omap id t with
  | [] => None
  | k :: ks => Some (foldr Z.max k ks)
  end.

(** The id in the usual case: 1 on an empty table, else one more than the
    largest. *)
Definition next_id (t : list Reservation) : Z :=
  match largest_id t with
  | None => 1
  | Some m => m + 1
  end.

(** The id SQLite gives a new row.  Once the largest id is the largest
    there is, it draws ids at random until one is free ([pick] is the draw
    it ends on) and gives up when it finds none. *)
Definition new_rowid (pick : Z) (t : list Reservation) : option Z :=
  if bool_decide (largest_id t = Some max_rowid) then
    if (1 <=? pick) && (pick <=? max_rowid) && bool_decide (Some pick ∉ id <$> t)
    then Some pick else None
  else Some (next_id t).

(** The row an insert makes of a new object, with its id and the time. *)
Definition inserted_row (now k : Z) (r : Reservation) : Reservation :=
  set_created_at (Some now) (set_id (Some k) r).

(** The table lists its rows by id: a new row goes before the first row
    of a larger id. *)
Definition id_before (a b : Reservation) : bool :=
  match id a, id b with
  | Some x, Some y => x <? y
  | _, _ => false
  end.

Fixpoint place (row : Reservation) (t : list Reservation) : list Reservation :=
  match t with
  | [] => [row]
  | x :: t' => if id_before row x then row :: t else x :: place row t'
  end.

(** The row written for a stored row at a flush: the loaded object when it
    differs from the row. *)
Definition flushed_row (objs : gmap Z Reservation) (row : Reservation) : Reservation :=
  match id row ≫= (objs !!.) with
  | Some o => o
  | None => row
  end.

(** Inserts give each new object its id and the insertion time. *)
Fixpoint insert_all (now pick : Z) (t : list Reservation) (news : list Reservation)
    : option (list Reservation) :=
  match news with
  | [] => Some t
  | r :: rest =>
      k ← new_rowid pick t;
      insert_all now pick (place (inserted_row now k r) t) rest
  end.

Definition is_deleted (dels : list Z) (r : Reservation) : bool :=
  match id r with
  | Some i => bool_decide (i ∈ dels)
  | None => false
  end.

(** The identity map after a commit: the objects of the rows that were
    loaded before or have just been inserted. *)
Definition persistent (objs : gmap Z Reservation) (news t : list Reservation)
    : gmap Z Reservation :=
  list_to_map
    (omap (λ r, i ← id r;
                if bool_decide (is_Some (objs !! i)) || bool_decide (r ∈ news)
                then Some (i, r) else None) t).

(** [db.session.commit()]: updates, inserts and deletes are written in one
    transaction.  A value that does not fit, or a table with no free id,
    makes the commit raise and leaves the table as it was. *)
Definition db_commit : M unit := λ e w,
  let updated := flushed_row (loaded w) <$> table w in
  if forallb (λ r, bool_decide (r ∈ table w) || storable r) updated
     && forallb storable (added w)
  then
    match insert_all (utcnow e) (rowid e) updated (added w) with
    | Some inserted =>
        let t' := filter (λ r, is_deleted (deleted w) r = false) inserted in
        (inr (), World (session w) (flashes w) t'
                   (persistent (loaded w) (filter (λ r, r ∉ updated) inserted) t') [] [])
    | None => (inl OperationalError, w)
    end
  else (inl OverflowError, w).

(** [Reservation.query.all()], in the order of the table, and
    [Reservation.query.order_by(Reservation.check_in).all()]: the rows by
    ascending [check_in], rows of the same [check_in] in the order of the
    table. *)
Definition by_check_in (a b : Reservation) : Prop := date_le (check_in a) (check_in b).

#[global] Instance by_check_in_dec : RelDecision by_check_in.
Proof. intros a b. unfold by_check_in. apply _. Defined.

(** A row goes before the first row that is not earlier than it. *)
Fixpoint insert_by_check_in (r : Reservation) (l : list Reservation)
    : list Reservation :=
  match l with
  | [] => [r]
  | x :: l' =>
      if date_leb (check_in r) (check_in x) then r :: l
      else x :: insert_by_check_in r l'
  end.

Definition order_by_check_in (t : list Reservation) : list Reservation :=
  foldr insert_by_check_in [] t.

Definition query_all : M (list Reservation) := λ _ w, (inr (table w), w).
Definition query_order_by_check_in : M (list Reservation) := λ _ w,
  (inr (order_by_check_in (table w)), w).

(** The end of a request: Flask-SQLAlchemy removes the ORM session, which
    drops everything that was not committed. *)
Definition teardown (w : world) : world :=
  World (session w) (flashes w) (table w) ∅ [] [].

(** ** The views of [app.py] *)

Definition is_post (m : http_method) : bool := bool_decide (m = POST).

(** The two decorators.  [args] stands for the arguments the URL gives the
    view. *)
Definition require_admin {A} (f : A → M response) : A → M response := λ args,
  admin ← session_get "admin_logged_in";
  if negb admin then
    flash "Please login as admin to access this page" "error";;
    mret (Redirect EpAdminLogin)
  else f args.

Definition check_readonly {A} (f : A → M response) : A → M response := λ args,
  readonly ← session_get "readonly_mode";
  if readonly : bool then
    flash "You are in read-only mode. You cannot modify reservations." "error";;
    mret (Redirect EpIndex)
  else f args.

Definition admin_login : M response :=
  admin ← session_get "admin_logged_in";
  if admin : bool then mret (Redirect EpIndex)
  else
    m ← ask method;
    if is_post m then
      password ← ask (λ e, form e !! "password");
      secret ← ask ADMIN_PASSWORD;
      if bool_decide (password = Some secret) then
        session_set "admin_logged_in" true;;
        session_pop "readonly_mode";;
        flash "Logged in as Admin" "success";;
        mret (Redirect EpIndex)
      else
        flash "Invalid admin password" "error";;
        mret (Render "admin_login.html" NoArgs)
    else mret (Render "admin_login.html" NoArgs).

Definition admin_logout : M response :=
  session_pop "admin_logged_in";;
  flash "Logged out from admin mode" "success";;
  mret (Redirect EpAdminLogin).

Definition readonly_access : M response :=
  session_set "readonly_mode" true;;
  session_pop "admin_logged_in";;
  flash "Viewing in read-only mode" "success";;
  mret (Redirect EpIndex).

Definition exit_readonly : M response :=
  session_pop "readonly_mode";;
  flash "Exited read-only mode" "success";;
  mret (Redirect EpLoginSelect).

Definition index : M response :=
  admin ← session_get "admin_logged_in";
  readonly ← session_get "readonly_mode";
  if negb admin && negb readonly then mret (Redirect EpLoginSelect)
  else
    reservations ← query_order_by_check_in;
    is_readonly ← session_get "readonly_mode";
    is_admin ← session_get "admin_logged_in";
    today ← ask today;
    mret (Render "index.html" (ListingArgs reservations is_readonly is_admin today)).

Definition login_select : M response :=
  admin ← session_get "admin_logged_in";
  readonly ← session_get "readonly_mode";
  if admin || readonly then mret (Redirect EpIndex)
  else mret (Render "login_select.html" NoArgs).

(** The function under the decorators of [/add]. *)
Definition add_reservation_view (_ : unit) : M response :=
  m ← ask method;
  if is_post m then
    try_except
      (guest ← form_item "guest_name";
       source ← form_item "platform";
       ci_text ← form_item "check_in";
       ci ← strptime_date ci_text;
       co_text ← form_item "check_out";
       co ← strptime_date co_text;
       ad_text ← form_item "adults";
       ad ← int_of ad_text;
       ch_text ← form_item "children";
       ch ← int_of ch_text;
       sr ← form_get "special_requests" EmptyString;
       nt ← form_get "notes" EmptyString;
       let reservation :=
         mkReservation None guest source ci co (Some ad) (Some ch) (Some sr) (Some nt) None in
       if date_leb (check_out reservation) (check_in reservation) then
         flash "Check-out date must be after check-in date!" "error";;
         mret (Redirect EpAddReservation)
       else
         db_add reservation;;
         db_commit;;
         flash "Reservation added successfully!" "success";;
         mret (Redirect EpIndex))
      (λ e,
         text ← str_of e;
         flash ("Error adding reservation: " +:+ text) "error";;
         mret (Redirect EpAddReservation))
  else mret (Render "add_reservation.html" NoArgs).

Definition add_reservation : unit → M response :=
  require_admin (check_readonly add_reservation_view).

(** The function under the decorators of [/edit/<int:id>]. *)
Definition edit_reservation_view (i : Z) : M response :=
  reservation ← get_or_404 i;
  m ← ask method;
  if is_post m then
    try_except
      (guest ← form_item "guest_name";
       setattr reservation (set_guest_name guest);;
       source ← form_item "platform";
       setattr reservation (set_platform source);;
       ci_text ← form_item "check_in";
       ci ← strptime_date ci_text;
       setattr reservation (set_check_in ci);;
       co_text ← form_item "check_out";
       co ← strptime_date co_text;
       setattr reservation (set_check_out co);;
       ad_text ← form_item "adults";
       ad ← int_of ad_text;
       setattr reservation (set_adults (Some ad));;
       ch_text ← form_item "children";
       ch ← int_of ch_text;
       setattr reservation (set_children (Some ch));;
       sr ← form_get "special_requests" EmptyString;
       setattr reservation (set_special_requests (Some sr));;
       nt ← form_get "notes" EmptyString;
       setattr reservation (set_notes (Some nt));;
       r ← deref reservation;
       if date_leb (check_out r) (check_in r) then
         flash "Check-out date must be after check-in date!" "error";;
         mret (Redirect (EpEditReservation i))
       else
         db_commit;;
         flash "Reservation updated successfully!" "success";;
         mret (Redirect EpIndex))
      (λ e,
         text ← str_of e;
         flash ("Error updating reservation: " +:+ text) "error";;
         mret (Redirect (EpEditReservation i)))
  else
    r ← deref reservation;
    mret (Render "edit_reservation.html" (ReservationArg r)).

Definition edit_reservation : Z → M response :=
  require_admin (check_readonly edit_reservation_view).

(** The function under the decorators of [/delete/<int:id>]. *)
Definition delete_reservation_view (i : Z) : M response :=
  reservation ← get_or_404 i;
  try_except
    (db_delete reservation;;
     db_commit;;
     flash "Reservation deleted successfully!" "success")
    (λ e,
       text ← str_of e;
       flash ("Error deleting reservation: " +:+ text) "error");;
  mret (Redirect EpIndex).

Definition delete_reservation : Z → M response :=
  require_admin (check_readonly delete_reservation_view).

Definition api_reservations : M response :=
  reservations ← query_all;
  mret (Jsonify (JList ((λ r, JDict (to_dict r)) <$> reservations))).

Definition calendar_view : M response :=
  admin ← session_get "admin_logged_in";
  readonly ← session_get "readonly_mode";
  if negb admin && negb readonly then mret (Redirect EpLoginSelect)
  else
    reservations ← query_order_by_check_in;
    is_readonly ← session_get "readonly_mode";
    is_admin ← session_get "admin_logged_in";
    today ← ask today;
    mret (Render "calendar.html" (ListingArgs reservations is_readonly is_admin today)).

(** ** Serving a request *)

(** The requests the URL map hands to a view: a route together with a
    method its [methods] list admits ([HEAD] comes with [GET]) and, where
    the view reads it, the submitted form.  Any other method is answered by
    Flask itself and reaches no view. *)
Inductive request :=
  | ReqAdminLogin (m : http_method) (f : gmap string string)
  | ReqAdminLogout
  | ReqReadonly
  | ReqExitReadonly
  | ReqIndex
  | ReqLoginSelect
  | ReqAdd (m : http_method) (f : gmap string string)
  | ReqEdit (id : Z) (m : http_method) (f : gmap string string)
  | ReqDelete (id : Z)
  | ReqApiReservations
  | ReqCalendar.

(** What the process, its runtime and the storage engine supply to every
    request: the configured password, the readings of the clock, the two
    parsers and [str] of the Python at hand, and the draw of the engine. *)
Record host := Host {
  host_password : string;
  host_today : date;
  host_utcnow : Z;
  host_int : string → option Z;
  host_strptime : string → option date;
  host_str : exn → string;
  host_rowid : Z
}.

Definition env_of (h : host) (rq : request) : env :=
  match rq with
  | ReqAdminLogin m f | ReqAdd m f | ReqEdit _ m f =>
      Env (host_password h) (host_today h) (host_utcnow h) m f
        (host_int h) (host_strptime h) (host_str h) (host_rowid h)
  | _ =>
      Env (host_password h) (host_today h) (host_utcnow h) GET ∅
        (host_int h) (host_strptime h) (host_str h) (host_rowid h)
  end.

(** A host for the examples: the sample parsers and texts. *)
Definition some_host : host :=
  Host "pw" (Date 2024 1 1) 0 ascii_int ascii_strptime sample_str 1.

Definition view_of (rq : request) : M response :=
  match rq with
  | ReqAdminLogin _ _ => admin_login
  | ReqAdminLogout => admin_logout
  | ReqReadonly => readonly_access
  | ReqExitReadonly => exit_readonly
  | ReqIndex => index
  | ReqLoginSelect => login_select
  | ReqAdd _ _ => add_reservation ()
  | ReqEdit i _ _ => edit_reservation i
  | ReqDelete i => delete_reservation i
  | ReqApiReservations => api_reservations
  | ReqCalendar => calendar_view
  end.

(** One request from start to end: the view runs, an exception it lets
    escape becomes an error response, and the ORM session is removed. *)
Definition serve (h : host) (rq : request) (w : world) : response * world :=
  match view_of rq (env_of h rq) w with
  | (inr r, w') => (r, teardown w')
  | (inl x, w') => (Abort (status_of_exn x), teardown w')
  end.

(** A world between requests: nothing is pending in the ORM session. *)
Definition idle (w : world) : Prop :=
  loaded w = ∅ ∧ added w = [] ∧ deleted w = [].

Definition fresh_world (t : list Reservation) : world := World ∅ [] t ∅ [] [].

(** ** Session modes *)

Definition is_admin (s : gmap string bool) : bool :=
  default false (s !! "admin_logged_in").
Definition is_readonly (s : gmap string bool) : bool :=
  default false (s !! "readonly_mode").

(** At most one of the two flags is set. *)
Definition mode_exclusive (s : gmap string bool) : Prop :=
  ¬ (is_admin s = true ∧ is_readonly s = true).

Definition anonymous (s : gmap string bool) : Prop :=
  is_admin s = false ∧ is_readonly s = false.

(** The sessions a client can hold: the empty one of a first visit, and
    whatever a request leaves of a session it could hold before.  The
    rest of the world is left free at every step. *)
Inductive reachable : gmap string bool → Prop :=
  | reach_fresh : reachable ∅
  | reach_serve h rq w :
      reachable (session w) → reachable (session (serve h rq w).2).

(** The routes that change reservations, and the ones that show them. *)
Definition mutating (rq : request) : bool :=
  match rq with
  | ReqAdd _ _ | ReqEdit _ _ _ | ReqDelete _ => true
  | _ => false
  end.
Definition viewing (rq : request) : bool :=
  match rq with
  | ReqIndex | ReqCalendar => true
  | _ => false
  end.

(** A computation that leaves the session as it found it. *)
Definition keeps_session {A} (m : M A) : Prop :=
  ∀ e w, session (m e w).2 = session w.

(** The session that has just entered read-only mode from a first visit. *)
Definition readonly_session : gmap string bool := {[ "readonly_mode" := true ]}.
Definition admin_session : gmap string bool := {[ "admin_logged_in" := true ]}.

(** The notices of the two gates. *)
Definition admin_notice : string * string :=
  ("Please login as admin to access this page", "error").
Definition readonly_notice : string * string :=
  ("You are in read-only mode. You cannot modify reservations.", "error").

(** ** Submitted forms *)

(** The two dates of a form, when both fields are there and parse. *)
Definition parsed_dates (h : host) (f : gmap string string) : option (date * date) :=
  ci ← f !! "check_in" ≫= read_date (host_strptime h);
  co ← f !! "check_out" ≫= read_date (host_strptime h);
  Some (ci, co).

(** The dates parse and the check-out is not after the check-in. *)
Definition fails_validation (h : host) (f : gmap string string) : bool :=
  match parsed_dates h f with
  | Some (ci, co) => date_leb co ci
  | None => false
  end.

(** A field the view indexes is missing, or a date or a count does not
    parse. *)
Definition fails_parsing (h : host) (f : gmap string string) : bool :=
  negb (bool_decide (is_Some (f !! "guest_name")) &&
        bool_decide (is_Some (f !! "platform")) &&
        bool_decide (is_Some (f !! "check_in" ≫= read_date (host_strptime h))) &&
        bool_decide (is_Some (f !! "check_out" ≫= read_date (host_strptime h))) &&
        bool_decide (is_Some (f !! "adults" ≫= host_int h)) &&
        bool_decide (is_Some (f !! "children" ≫= host_int h))).

(** A view that ended by sending the client to [target] with one more
    notice of category error and the table as it was. *)
Definition rejected (target : endpoint) (w : world) (out : (exn + response) * world) : Prop :=
  out.1 = inr (Redirect target) ∧
  table out.2 = table w ∧
  session out.2 = session w ∧
  ∃ msg, flashes out.2 = flashes w ++ [(msg, "error")].

(** The scenario forms: a stay from the first to the fifth of March, and
    the same with the two dates exchanged. *)
Definition smith_form : gmap string string :=
  list_to_map [("guest_name", "A. Smith"); ("platform", "Airbnb");
               ("check_in", "2024-03-01"); ("check_out", "2024-03-05");
               ("adults", "2"); ("children", "0")].
Definition swapped_form : gmap string string :=
  <["check_in" := "2024-03-05"]> (<["check_out" := "2024-03-01"]> smith_form).
Definition smith_row : Reservation :=
  mkReservation (Some 1) "A. Smith" "Airbnb" (Date 2024 3 1) (Date 2024 3 5)
    (Some 2) (Some 0) (Some EmptyString) (Some EmptyString) (Some 0).
Definition admin_world (t : list Reservation) : world :=
  World admin_session [] t ∅ [] [].

(** ** Dates as text *)

(** The shape of an ISO-8601 calendar date, [YYYY-MM-DD]: four digits, a
    dash, a two-digit month from 01 to 12, a dash, a two-digit day from 01
    to 31. *)
Definition two_digits (a b : ascii) : option Z :=
  match digit_val a, digit_val b with
  | Some x, Some y => Some (x * 10 + y)
  | _, _ => None
  end.

Definition iso8601_date (s : string) : bool :=
  match s with
  | String y3 (String y2 (String y1 (String y0 (String "-"
      (String m1 (String m0 (String "-" (String d1 (String d0 EmptyString))))))))) =>
      is_digit y3 && is_digit y2 && is_digit y1 && is_digit y0 &&
      match two_digits m1 m0, two_digits d1 d0 with
      | Some m, Some d => (1 <=? m) && (m <=? 12) && (1 <=? d) && (d <=? 31)
      | _, _ => false
      end
  | _ => false
  end.

(** The value under a key of a [to_dict] result. *)
Definition dict_get (key : string) (kvs : list (string * json)) : option json :=
  snd <$> find (λ kv, bool_decide (kv.1 = key)) kvs.

(** The dates of every row are dates a [date] object can hold. *)
Definition dates_valid (t : list Reservation) : Prop :=
  Forall (λ r, valid_date (check_in r) = true ∧ valid_date (check_out r) = true) t.

(** ** What a form asks for, and what the table holds *)

(** The object the views build from a form when no lookup and no parse
    raises: the six indexed fields, and the two optional texts with their
    default.  It has no id and no creation time yet. *)
Definition form_fields (h : host) (f : gmap string string) : option Reservation :=
  guest ← f !! "guest_name";
  source ← f !! "platform";
  ci ← f !! "check_in" ≫= read_date (host_strptime h);
  co ← f !! "check_out" ≫= read_date (host_strptime h);
  ad ← f !! "adults" ≫= host_int h;
  ch ← f !! "children" ≫= host_int h;
  Some (mkReservation None guest source ci co (Some ad) (Some ch)
          (Some (default EmptyString (f !! "special_requests")))
          (Some (default EmptyString (f !! "notes"))) None).

(** The check-out is after the check-in. *)
Definition ordered (r : Reservation) : bool :=
  negb (date_leb (check_out r) (check_in r)).

(** The form of a create attempt that goes through: it parses, its dates
    are in order, and its counts fit the table. *)
Definition accepted (h : host) (f : gmap string string) : option Reservation :=
  r ← form_fields h f;
  if ordered r && storable r then Some r else None.

(** A table whose ids are all below the largest row id, so that the next
    insert takes the next id. *)
Definition below_max (t : list Reservation) : Prop :=
  ∀ x k, x ∈ t → id x = Some k → k < max_rowid.

(** The object an edit leaves when all its assignments have run: the eight
    fields of the form on the id and the creation time of the row. *)
Definition edited_row (r row : Reservation) : Reservation :=
  mkReservation (id row) (guest_name r) (platform r) (check_in r) (check_out r)
    (adults r) (children r) (special_requests r) (notes r) (created_at row).

(** A row as the views store it: every column has a value, the dates are
    dates of the calendar, and the check-out is after the check-in. *)
Definition row_ok (r : Reservation) : Prop :=
  is_Some (id r) ∧ is_Some (adults r) ∧ is_Some (children r) ∧
  is_Some (special_requests r) ∧ is_Some (notes r) ∧ is_Some (created_at r) ∧
  valid_date (check_in r) = true ∧ valid_date (check_out r) = true ∧
  ordered r = true.

(** A table of such rows, no two with the same id. *)
Definition table_ok (t : list Reservation) : Prop :=
  Forall row_ok t ∧ NoDup (id <$> t).

(** A session that holds nothing but the two flags, each as [True]. *)
Definition flags_only (s : gmap string bool) : Prop :=
  ∀ k v, s !! k = Some v →
    v = true ∧ (k = "admin_logged_in" ∨ k = "readonly_mode").

(** The session as Flask holds it in the cookie: the flags of the views
    and, once a notice has been given, the key [_flashes] with the notices,
    each as the pair of its category and its message. *)
Inductive session_value :=
  | Flag (b : bool)
  | Notices (l : list (string * string)).

Definition flask_session (w : world) : gmap string session_value :=
  match flashes w with
  | [] => Flag <$> session w
  | l => <["_flashes" := Notices (prod_swap <$> l)]> (Flag <$> session w)
  end.

(** The categories the views give their notices. *)
Definition known_category (n : string * string) : Prop :=
  n.2 = "success" ∨ n.2 = "error".

(** A computation that gives at most [n] notices, each of a known
    category, after the ones there are, and none when it raises. *)
Definition notices (n : nat) {A} (m : M A) : Prop :=
  ∀ e w,
    match m e w with
    | (inl _, w') => flashes w' = flashes w
    | (inr _, w') =>
        ∃ l, flashes w' = flashes w ++ l ∧ (length l ≤ n)%nat ∧
             Forall known_category l
    end.

(** The world a served request leaves: the session and the notices given,
    the table given, and nothing pending. *)
Definition settled (s : gmap string bool) (fl : list (string * string))
    (t : list Reservation) : world :=
  World s fl t ∅ [] [].

(** ** Histories *)

(** A history of requests: each comes at some reading of the clock, with
    the session its client holds, whatever that is; the table and the
    notices are those the request before left. *)
Fixpoint run (trace : list (host * gmap string bool * request)) (w : world) : world :=
  match trace with
  | [] => w
  | (h, s, rq) :: rest => run rest (serve h rq (with_session (λ _, s) w)).2
  end.

(** A history of one client: each request comes with the session the
    request before left. *)
Fixpoint browse (trace : list (host * request)) (w : world) : world :=
  match trace with
  | [] => w
  | (h, rq) :: rest => browse rest (serve h rq w).2
  end.

(** * Properties *)

(** ** The parsers on sample text *)

Example strptime_plain : ascii_strptime "2024-03-05" = Some (Date 2024 3 5).
Proof. reflexivity. Qed.
Example strptime_short : ascii_strptime "2024-3-5" = Some (Date 2024 3 5).
Proof. reflexivity. Qed.
Example strptime_feb30 : ascii_strptime "2024-02-30" = None.
Proof. reflexivity. Qed.
Example strptime_leap : ascii_strptime "2024-02-29" = Some (Date 2024 2 29).
Proof. reflexivity. Qed.
Example strptime_noleap : ascii_strptime "2023-02-29" = None.
Proof. reflexivity. Qed.
Example strptime_trailing : ascii_strptime "2024-01-311" = None.
Proof. reflexivity. Qed.
Example strptime_month13 : ascii_strptime "2024-13-01" = None.
Proof. reflexivity. Qed.
Example strptime_year0 : ascii_strptime "0000-01-01" = None.
Proof. reflexivity. Qed.
Example isoformat_plain : isoformat (Date 2024 3 1) = "2024-03-01".
Proof. reflexivity. Qed.

Example int_plain : ascii_int "2" = Some 2. Proof. reflexivity. Qed.
Example int_spaces : ascii_int " -12 " = Some (-12). Proof. reflexivity. Qed.
Example int_grouped : ascii_int "1_000" = Some 1000. Proof. reflexivity. Qed.
Example int_empty : ascii_int EmptyString = None. Proof. reflexivity. Qed.
Example int_bad_group : ascii_int "1__0" = None. Proof. reflexivity. Qed.
Example int_word : ascii_int "two" = None. Proof. reflexivity. Qed.

(** ** Frame lemmas: what a computation leaves of the session *)

Section frame.
Context {A B : Type}.

Lemma keeps_ret (a : A) : keeps_session (mret a).
Proof. by intros e w. Qed.

Lemma keeps_raise (x : exn) : keeps_session (raise (A:=A) x).
Proof. by intros e w. Qed.

Lemma keeps_ask (f : env → A) : keeps_session (ask f).
Proof. by intros e w. Qed.

Lemma keeps_bind (m : M A) (f : A → M B) :
  keeps_session m → (∀ a, keeps_session (f a)) → keeps_session (m ≫= f).
Proof.
  intros Hm Hf e w. unfold mbind, M_bind. specialize (Hm e w).
  destruct (m e w) as [[x|a] w']; simpl in *; [done|].
  by rewrite Hf.
Qed.

Lemma keeps_try (m : M A) (k : exn → M A) :
  keeps_session m → (∀ x, keeps_session (k x)) → keeps_session (try_except m k).
Proof.
  intros Hm Hk e w. unfold try_except. specialize (Hm e w).
  destruct (m e w) as [[x|a] w']; simpl in *; [|done].
  by rewrite Hk.
Qed.
End frame.

Lemma keeps_session_get k : keeps_session (session_get k).
Proof. by intros e w. Qed.
Lemma keeps_flash msg cat : keeps_session (flash msg cat).
Proof. by intros e w. Qed.
Lemma keeps_form_item k : keeps_session (form_item k).
Proof. intros e w. unfold form_item. by case_match. Qed.
Lemma keeps_form_get k d : keeps_session (form_get k d).
Proof. by intros e w. Qed.
Lemma keeps_strptime_date s : keeps_session (strptime_date s).
Proof. intros e w. unfold strptime_date. by case_match. Qed.
Lemma keeps_int_of s : keeps_session (int_of s).
Proof. intros e w. unfold int_of. by case_match. Qed.
Lemma keeps_get_or_404 i : keeps_session (get_or_404 i).
Proof. intros e w. unfold get_or_404. by repeat case_match. Qed.
Lemma keeps_deref i : keeps_session (deref i).
Proof. intros e w. unfold deref. by case_match. Qed.
Lemma keeps_setattr i u : keeps_session (setattr i u).
Proof. by intros e w. Qed.
Lemma keeps_db_add r : keeps_session (db_add r).
Proof. by intros e w. Qed.
Lemma keeps_db_delete i : keeps_session (db_delete i).
Proof. by intros e w. Qed.
Lemma keeps_db_commit : keeps_session db_commit.
Proof. intros e w. unfold db_commit. by repeat case_match. Qed.
Lemma keeps_str_of x : keeps_session (str_of x).
Proof. by intros e w. Qed.
Lemma keeps_query_all : keeps_session query_all.
Proof. by intros e w. Qed.
Lemma keeps_query_order_by_check_in : keeps_session query_order_by_check_in.
Proof. by intros e w. Qed.

Create HintDb frame.
#[global] Hint Resolve keeps_session_get keeps_flash keeps_form_item keeps_form_get
  keeps_strptime_date keeps_int_of keeps_get_or_404 keeps_deref keeps_setattr
  keeps_db_add keeps_db_delete keeps_db_commit keeps_str_of keeps_query_all
  keeps_query_order_by_check_in : frame.

(** Walks through a view: binds and handlers are split, conditionals are
    taken both ways, and the primitives are closed from the database. *)
Ltac frame :=
  repeat first
    [ progress intros
    | apply keeps_ret | apply keeps_raise | apply keeps_ask
    | solve [auto with frame]
    | apply keeps_bind | apply keeps_try
    | case_match
    | progress cbv zeta ].

Lemma keeps_require_admin {A} (f : A → M response) a :
  keeps_session (f a) → keeps_session (require_admin f a).
Proof. intros Hf. unfold require_admin. frame. Qed.

Lemma keeps_check_readonly {A} (f : A → M response) a :
  keeps_session (f a) → keeps_session (check_readonly f a).
Proof. intros Hf. unfold check_readonly. frame. Qed.

Lemma keeps_index : keeps_session index.
Proof. unfold index. frame. Qed.
Lemma keeps_calendar_view : keeps_session calendar_view.
Proof. unfold calendar_view. frame. Qed.
Lemma keeps_login_select : keeps_session login_select.
Proof. unfold login_select. frame. Qed.
Lemma keeps_api_reservations : keeps_session api_reservations.
Proof. unfold api_reservations. frame. Qed.
Lemma keeps_add_reservation : keeps_session (add_reservation ()).
Proof.
  apply keeps_require_admin, keeps_check_readonly.
  unfold add_reservation_view. frame.
Qed.
Lemma keeps_edit_reservation i : keeps_session (edit_reservation i).
Proof.
  apply keeps_require_admin, keeps_check_readonly.
  unfold edit_reservation_view. frame.
Qed.
Lemma keeps_delete_reservation i : keeps_session (delete_reservation i).
Proof.
  apply keeps_require_admin, keeps_check_readonly.
  unfold delete_reservation_view. frame.
Qed.

Lemma serve_session h rq w :
  session (serve h rq w).2 = session (view_of rq (env_of h rq) w).2.
Proof. unfold serve. by destruct (view_of rq (env_of h rq) w) as [[x|r] w']. Qed.

(** ** What the mode transitions do to the session *)

Lemma admin_login_session e w :
  session (admin_login e w).2 =
    if is_admin (session w) then session w
    else if is_post (method e) && bool_decide (form e !! "password" = Some (ADMIN_PASSWORD e))
    then delete "readonly_mode" (<["admin_logged_in" := true]> (session w))
    else session w.
Proof.
  unfold admin_login, mbind, M_bind, session_get, is_admin. simpl.
  destruct (default false (session w !! "admin_logged_in")); [done|].
  unfold ask. simpl. destruct (is_post (method e)); [|done].
  simpl. by case_bool_decide.
Qed.

Lemma admin_logout_session e w :
  session (admin_logout e w).2 = delete "admin_logged_in" (session w).
Proof. done. Qed.

Lemma readonly_access_session e w :
  session (readonly_access e w).2 =
    delete "admin_logged_in" (<["readonly_mode" := true]> (session w)).
Proof. done. Qed.

Lemma exit_readonly_session e w :
  session (exit_readonly e w).2 = delete "readonly_mode" (session w).
Proof. done. Qed.

Lemma flags_after_login (s : gmap string bool) :
  is_admin (delete "readonly_mode" (<["admin_logged_in" := true]> s)) = true ∧
  is_readonly (delete "readonly_mode" (<["admin_logged_in" := true]> s)) = false.
Proof.
  unfold is_admin, is_readonly.
  rewrite lookup_delete_eq, lookup_delete_ne, lookup_insert_eq by done. done.
Qed.

Lemma flags_after_readonly (s : gmap string bool) :
  is_readonly (delete "admin_logged_in" (<["readonly_mode" := true]> s)) = true ∧
  is_admin (delete "admin_logged_in" (<["readonly_mode" := true]> s)) = false.
Proof.
  unfold is_admin, is_readonly.
  rewrite lookup_delete_eq, lookup_delete_ne, lookup_insert_eq by done. done.
Qed.

Lemma flags_after_logout (s : gmap string bool) :
  is_admin (delete "admin_logged_in" s) = false ∧
  is_readonly (delete "admin_logged_in" s) = is_readonly s.
Proof.
  unfold is_admin, is_readonly.
  rewrite lookup_delete_eq, lookup_delete_ne by done. done.
Qed.

Lemma flags_after_exit (s : gmap string bool) :
  is_readonly (delete "readonly_mode" s) = false ∧
  is_admin (delete "readonly_mode" s) = is_admin s.
Proof.
  unfold is_admin, is_readonly.
  rewrite lookup_delete_eq, lookup_delete_ne by done. done.
Qed.

(** Every request keeps the two flags exclusive. *)
Lemma serve_exclusive h rq w :
  mode_exclusive (session w) → mode_exclusive (session (serve h rq w).2).
Proof.
  intros Hex. rewrite serve_session. destruct rq; unfold view_of.
  - rewrite admin_login_session.
    destruct (is_admin (session w)); [done|].
    case_match; [|done].
    destruct (flags_after_login (session w)) as [_ Hr].
    intros [_ Hr']. congruence.
  - rewrite admin_logout_session.
    destruct (flags_after_logout (session w)) as [Ha _].
    intros [Ha' _]. congruence.
  - rewrite readonly_access_session.
    destruct (flags_after_readonly (session w)) as [_ Ha].
    intros [Ha' _]. congruence.
  - rewrite exit_readonly_session.
    destruct (flags_after_exit (session w)) as [Hr _].
    intros [_ Hr']. congruence.
  - by rewrite keeps_index.
  - by rewrite keeps_login_select.
  - by rewrite keeps_add_reservation.
  - by rewrite keeps_edit_reservation.
  - by rewrite keeps_delete_reservation.
  - by rewrite keeps_api_reservations.
  - by rewrite keeps_calendar_view.
Qed.

Lemma reachable_exclusive s : reachable s → mode_exclusive s.
Proof.
  induction 1 as [|h rq w _ IH].
  - unfold mode_exclusive, is_admin. rewrite lookup_empty. simpl. intros [? _]. done.
  - by apply serve_exclusive.
Qed.

Lemma reachable_readonly_session : reachable readonly_session.
Proof.
  change readonly_session with
    (session (serve some_host ReqReadonly (fresh_world [])).2).
  apply reach_serve, reach_fresh.
Defined.

Lemma reachable_admin_session : reachable admin_session.
Proof.
  change admin_session with
    (session (serve some_host
                (ReqAdminLogin POST {[ "password" := "pw" ]}) (fresh_world [])).2).
  apply reach_serve, reach_fresh.
Defined.

(** ** The access gates *)

(** The two decorators stacked as on the mutating routes: the admin flag is
    looked at first, the read-only flag second, each on its own. *)
Lemma gated_run {A} (f : A → M response) (a : A) e w :
  require_admin (check_readonly f) a e w =
    if negb (is_admin (session w))
    then (inr (Redirect EpAdminLogin), with_flashes (λ l, l ++ [admin_notice]) w)
    else if is_readonly (session w)
    then (inr (Redirect EpIndex), with_flashes (λ l, l ++ [readonly_notice]) w)
    else f a e w.
Proof.
  unfold require_admin, check_readonly, mbind, M_bind, session_get, is_admin, is_readonly.
  simpl. destruct (default false (session w !! "admin_logged_in")); simpl; [|done].
  by destruct (default false (session w !! "readonly_mode")).
Qed.

(** The response and the table when a gate stops a mutating request. *)
Lemma serve_mutating_gated h rq w :
  mutating rq = true →
  is_admin (session w) = false ∨ is_readonly (session w) = true →
  serve h rq w =
    if negb (is_admin (session w))
    then (Redirect EpAdminLogin, teardown (with_flashes (λ l, l ++ [admin_notice]) w))
    else (Redirect EpIndex, teardown (with_flashes (λ l, l ++ [readonly_notice]) w)).
Proof.
  intros Hm Hs. unfold serve.
  destruct rq; try discriminate; unfold view_of, add_reservation, edit_reservation,
    delete_reservation; rewrite gated_run;
    destruct Hs as [Hs|Hs]; rewrite Hs; simpl; try done;
    by destruct (is_admin (session w)).
Qed.

(** ** Session flags *)

(** C3: after each of the four mode-transition requests on a session a
    client can hold, at most one of [admin_logged_in] and [readonly_mode] is
    set; after a login with the right password the admin flag is set and
    the read-only flag is cleared, and after entering read-only mode the
    read-only flag is set and the admin flag is cleared. *)
Theorem mode_transitions_exclusive h w :
  reachable (session w) →
  (∀ f, f !! "password" = Some (host_password h) →
     let s' := session (serve h (ReqAdminLogin POST f) w).2 in
     mode_exclusive s' ∧ is_admin s' = true ∧ is_readonly s' = false) ∧
  (let s' := session (serve h ReqReadonly w).2 in
   mode_exclusive s' ∧ is_readonly s' = true ∧ is_admin s' = false) ∧
  mode_exclusive (session (serve h ReqAdminLogout w).2) ∧
  mode_exclusive (session (serve h ReqExitReadonly w).2).
Proof.
  intros Hr. pose proof (reachable_exclusive _ Hr) as Hex.
  split; [|split; [|split]]; try (by apply serve_exclusive).
  - intros f Hpw s'. split; [by apply serve_exclusive|].
    subst s'. rewrite serve_session. unfold view_of.
    rewrite admin_login_session. simpl. rewrite Hpw.
    rewrite bool_decide_eq_true_2 by done. simpl.
    destruct (is_admin (session w)) eqn:Ha.
    + split; [done|]. destruct (is_readonly (session w)) eqn:Hro; [|done].
      by destruct Hex.
    + apply flags_after_login.
  - intros s'. split; [by apply serve_exclusive|].
    subst s'. rewrite serve_session. unfold view_of.
    rewrite readonly_access_session. apply flags_after_readonly.
Qed.

Lemma mode_transitions_exclusive_witness :
  let w := World readonly_session [] [] ∅ [] [] in
  let h := some_host in
  let s' := session (serve h (ReqAdminLogin POST {[ "password" := "pw" ]}) w).2 in
  mode_exclusive s' ∧ is_admin s' = true ∧ is_readonly s' = false.
Proof.
  intros w h.
  exact (proj1 (mode_transitions_exclusive h w reachable_readonly_session)
           {[ "password" := "pw" ]} eq_refl).
Defined.

(** C10: on a session whose admin flag is set, a request to the login
    route, whatever its method, form and the configured password, is
    answered by a redirect to the listing and leaves the session, the
    notices and the table as they were. *)
Theorem admin_login_already_admin h m f w :
  is_admin (session w) = true →
  serve h (ReqAdminLogin m f) w = (Redirect EpIndex, teardown w) ∧
  session (teardown w) = session w ∧
  flashes (teardown w) = flashes w ∧
  table (teardown w) = table w.
Proof.
  intros Ha. split; [|done].
  unfold serve, view_of, admin_login, mbind, M_bind, session_get.
  unfold is_admin in Ha. simpl. by rewrite Ha.
Qed.

Lemma admin_login_already_admin_witness :
  let w := World admin_session [] [] ∅ [] [] in
  serve some_host (ReqAdminLogin POST {[ "password" := "no" ]}) w
    = (Redirect EpIndex, teardown w) ∧
  session (teardown w) = session w ∧
  flashes (teardown w) = flashes w ∧
  table (teardown w) = table w.
Proof.
  intros w.
  exact (admin_login_already_admin some_host POST
           {[ "password" := "no" ]} w eq_refl).
Defined.

(** ** Access control *)

(** C7: on the three mutating routes the admin gate runs first and the
    read-only gate second, each looking at its own flag only; a session a
    client can hold that has the admin flag set is passed through both
    gates to the view. *)
Theorem gates_in_sequence :
  add_reservation = require_admin (check_readonly add_reservation_view) ∧
  edit_reservation = require_admin (check_readonly edit_reservation_view) ∧
  delete_reservation = require_admin (check_readonly delete_reservation_view) ∧
  (∀ A (f : A → M response) a e w,
     require_admin (check_readonly f) a e w =
       if negb (is_admin (session w))
       then (inr (Redirect EpAdminLogin), with_flashes (λ l, l ++ [admin_notice]) w)
       else if is_readonly (session w)
       then (inr (Redirect EpIndex), with_flashes (λ l, l ++ [readonly_notice]) w)
       else f a e w) ∧
  (∀ A (f : A → M response) a e w,
     reachable (session w) → is_admin (session w) = true →
     require_admin (check_readonly f) a e w = f a e w).
Proof.
  split; [done|]. split; [done|]. split; [done|].
  split; [intros; apply gated_run|].
  intros A f a e w Hr Ha. rewrite gated_run, Ha. simpl.
  destruct (is_readonly (session w)) eqn:Hro; [|done].
  by destruct (reachable_exclusive _ Hr).
Qed.

Lemma gates_in_sequence_witness :
  let w := World admin_session [] [] ∅ [] [] in
  let e := env_of some_host (ReqAdd GET ∅) in
  require_admin (check_readonly add_reservation_view) () e w
    = add_reservation_view () e w.
Proof.
  intros w e.
  exact (proj2 (proj2 (proj2 (proj2 gates_in_sequence)))
           unit add_reservation_view () e w reachable_admin_session eq_refl).
Defined.

(** C4: an anonymous session asking for the listing or the calendar is
    redirected to the mode selection, and asking for the add, edit or
    delete route it is redirected to the admin login; in no case is a
    template rendered or the table changed. *)
Theorem anonymous_redirected h rq w :
  anonymous (session w) →
  viewing rq || mutating rq = true →
  (serve h rq w).1 = Redirect (if viewing rq then EpLoginSelect else EpAdminLogin) ∧
  table (serve h rq w).2 = table w.
Proof.
  intros [Ha Hro] Hrq.
  destruct (mutating rq) eqn:Hm.
  - rewrite serve_mutating_gated by auto. rewrite Ha. simpl.
    by destruct rq.
  - destruct rq; try discriminate;
      unfold serve, view_of, index, calendar_view, mbind, M_bind, session_get;
      unfold is_admin, is_readonly in *; simpl; by rewrite Ha, Hro.
Qed.

Lemma anonymous_redirected_witness :
  (serve some_host (ReqDelete 1) (fresh_world [])).1
    = Redirect EpAdminLogin ∧
  table (serve some_host (ReqDelete 1) (fresh_world [])).2 = [].
Proof.
  exact (anonymous_redirected some_host (ReqDelete 1)
           (fresh_world []) (conj eq_refl eq_refl) eq_refl).
Defined.

(** C5, as the code has it: a session in read-only mode asking for the add,
    edit or delete route changes nothing in the table and is redirected
    with an error notice, to the admin login when its admin flag is not set
    (so for every read-only session a client can hold) and to the listing
    when the admin flag is set as well. *)
Theorem readonly_cannot_mutate h rq w :
  is_readonly (session w) = true →
  mutating rq = true →
  (serve h rq w).1 = Redirect (if is_admin (session w) then EpIndex else EpAdminLogin) ∧
  table (serve h rq w).2 = table w ∧
  (∃ msg, flashes (serve h rq w).2 = flashes w ++ [(msg, "error")]) ∧
  (reachable (session w) → (serve h rq w).1 = Redirect EpAdminLogin).
Proof.
  intros Hro Hm. rewrite serve_mutating_gated by auto.
  destruct (is_admin (session w)) eqn:Ha; simpl.
  - repeat split; [by eexists|]. intros Hr.
    by destruct (reachable_exclusive _ Hr).
  - repeat split. by eexists.
Qed.

Lemma readonly_cannot_mutate_witness :
  let w := World readonly_session [] [] ∅ [] [] in
  let h := some_host in
  (serve h (ReqEdit 1 POST ∅) w).1 = Redirect EpAdminLogin ∧
  table (serve h (ReqEdit 1 POST ∅) w).2 = [].
Proof.
  intros w h.
  pose proof (readonly_cannot_mutate h (ReqEdit 1 POST ∅) w eq_refl eq_refl) as H.
  exact (conj (proj1 H) (proj1 (proj2 H))).
Defined.

(** C5, as stated, fails: the session that has just entered read-only mode
    and asks for the add form is sent to the admin login, not to the
    listing. *)
Lemma readonly_add_goes_to_login :
  let w := World readonly_session [] [] ∅ [] [] in
  let h := some_host in
  reachable (session w) ∧
  is_readonly (session w) = true ∧
  (serve h (ReqAdd GET ∅) w).1 = Redirect EpAdminLogin ∧
  (serve h (ReqAdd GET ∅) w).1 ≠ Redirect EpIndex.
Proof.
  intros w h. split; [exact reachable_readonly_session|].
  split; [reflexivity|]. split; [reflexivity|]. discriminate.
Qed.

(** ** Validation of submitted forms *)

Arguments read_date : simpl never.

Ltac unfold_view :=
  unfold try_except, mbind, M_bind, mret, M_ret, raise, ask, form_item, form_get,
    strptime_date, int_of, str_of, flash, setattr, deref, db_add, db_delete; simpl.

Ltac rejected_now := by (repeat split; simpl; try done; eexists).

Lemma add_view_rejects h f w :
  fails_validation h f || fails_parsing h f = true →
  rejected EpAddReservation w
    (add_reservation_view () (env_of h (ReqAdd POST f)) w).
Proof.
  intros Hf. unfold add_reservation_view. unfold_view.
  destruct (f !! "guest_name") as [g|] eqn:Hg; simpl; [|rejected_now].
  destruct (f !! "platform") as [p|] eqn:Hp; simpl; [|rejected_now].
  destruct (f !! "check_in") as [cit|] eqn:Hci; simpl; [|rejected_now].
  destruct (read_date (host_strptime h) cit) as [ci|] eqn:Hcid; simpl; [|rejected_now].
  destruct (f !! "check_out") as [cot|] eqn:Hco; simpl; [|rejected_now].
  destruct (read_date (host_strptime h) cot) as [co|] eqn:Hcod; simpl; [|rejected_now].
  destruct (f !! "adults") as [at_|] eqn:Had; simpl; [|rejected_now].
  destruct (host_int h at_) as [ad|] eqn:Hadv; simpl; [|rejected_now].
  destruct (f !! "children") as [ct|] eqn:Hch; simpl; [|rejected_now].
  destruct (host_int h ct) as [ch|] eqn:Hchv; simpl; [|rejected_now].
  destruct (date_leb co ci) eqn:Hle; simpl; [rejected_now|].
  exfalso. revert Hf.
  unfold fails_validation, fails_parsing, parsed_dates.
  rewrite Hg, Hp, Hci, Hco, Had, Hch. simpl.
  rewrite Hcid, Hcod, Hadv, Hchv. simpl. rewrite Hle. done.
Qed.

Lemma edit_view_rejects_loaded h i f w r0 :
  loaded w !! i = Some r0 →
  fails_validation h f || fails_parsing h f = true →
  rejected (EpEditReservation i) w
    (edit_reservation_view i (env_of h (ReqEdit i POST f)) w).
Proof.
  intros Hl Hf. unfold edit_reservation_view, get_or_404. unfold_view.
  rewrite Hl. simpl.
  destruct (f !! "guest_name") as [g|] eqn:Hg; simpl; [|rejected_now].
  destruct (f !! "platform") as [p|] eqn:Hp; simpl; [|rejected_now].
  destruct (f !! "check_in") as [cit|] eqn:Hci; simpl; [|rejected_now].
  destruct (read_date (host_strptime h) cit) as [ci|] eqn:Hcid; simpl; [|rejected_now].
  destruct (f !! "check_out") as [cot|] eqn:Hco; simpl; [|rejected_now].
  destruct (read_date (host_strptime h) cot) as [co|] eqn:Hcod; simpl; [|rejected_now].
  destruct (f !! "adults") as [at_|] eqn:Had; simpl; [|rejected_now].
  destruct (host_int h at_) as [ad|] eqn:Hadv; simpl; [|rejected_now].
  destruct (f !! "children") as [ct|] eqn:Hch; simpl; [|rejected_now].
  destruct (host_int h ct) as [ch|] eqn:Hchv; simpl; [|rejected_now].
  rewrite !lookup_alter_eq, Hl. simpl.
  destruct (date_leb co ci) eqn:Hle; simpl; [rejected_now|].
  exfalso. revert Hf.
  unfold fails_validation, fails_parsing, parsed_dates.
  rewrite Hg, Hp, Hci, Hco, Had, Hch. simpl.
  rewrite Hcid, Hcod, Hadv, Hchv. simpl. rewrite Hle. done.
Qed.

(** Loading the row is all that [get_or_404] adds to the world. *)
Lemma edit_view_found i e w r :
  loaded w !! i = None →
  find (has_id i) (table w) = Some r →
  edit_reservation_view i e w = edit_reservation_view i e (with_loaded <[i := r]> w).
Proof.
  intros Hl Hr. unfold edit_reservation_view, mbind, M_bind, get_or_404. simpl.
  by rewrite Hl, Hr, lookup_insert_eq.
Qed.

Lemma edit_view_rejects h i f w :
  is_Some (find (has_id i) (table w)) →
  fails_validation h f || fails_parsing h f = true →
  rejected (EpEditReservation i) w
    (edit_reservation_view i (env_of h (ReqEdit i POST f)) w).
Proof.
  intros [r Hr] Hf. destruct (loaded w !! i) as [r0|] eqn:Hl.
  - by eapply edit_view_rejects_loaded.
  - rewrite (edit_view_found _ _ _ r) by done.
    apply (edit_view_rejects_loaded h i f (with_loaded <[i := r]> w) r); [|done].
    apply lookup_insert_eq.
Qed.

(** An id that is not stored makes the lookup raise, and nothing else
    happens. *)
Lemma edit_view_not_found i e w :
  loaded w !! i = None →
  find (has_id i) (table w) = None →
  edit_reservation_view i e w =
    (inl (if int64 (Some i) then NotFound else OverflowError), w).
Proof.
  intros Hl Hr. unfold edit_reservation_view, mbind, M_bind, get_or_404.
  rewrite Hl, Hr. by destruct (int64 (Some i)).
Qed.

(** Every request ends with nothing pending in the ORM session. *)
Lemma serve_idle h rq w : idle (serve h rq w).2.
Proof. unfold serve. by destruct (view_of rq (env_of h rq) w) as [[x|r] w']. Qed.

(** The gates let an admin session that is not read-only through. *)
Lemma serve_admin h rq w :
  is_admin (session w) = true →
  is_readonly (session w) = false →
  serve h rq w =
    match rq with
    | ReqAdd _ _ =>
        match add_reservation_view () (env_of h rq) w with
        | (inr r, w') => (r, teardown w')
        | (inl x, w') => (Abort (status_of_exn x), teardown w')
        end
    | ReqEdit i _ _ =>
        match edit_reservation_view i (env_of h rq) w with
        | (inr r, w') => (r, teardown w')
        | (inl x, w') => (Abort (status_of_exn x), teardown w')
        end
    | ReqDelete i =>
        match delete_reservation_view i (env_of h rq) w with
        | (inr r, w') => (r, teardown w')
        | (inl x, w') => (Abort (status_of_exn x), teardown w')
        end
    | _ => serve h rq w
    end.
Proof.
  intros Ha Hro.
  destruct rq; try done; unfold serve, view_of, add_reservation, edit_reservation,
    delete_reservation; by rewrite gated_run, Ha, Hro.
Qed.

(** What a rejection by the view means for the whole request. *)
Lemma rejected_served target w out :
  rejected target w out →
  (match out with
   | (inr r, w') => (r, teardown w')
   | (inl x, w') => (Abort (status_of_exn x), teardown w')
   end).1 = Redirect target ∧
  table (match out with
         | (inr r, w') => (r, teardown w')
         | (inl x, w') => (Abort (status_of_exn x), teardown w')
         end).2 = table w ∧
  ∃ msg, flashes (match out with
                  | (inr r, w') => (r, teardown w')
                  | (inl x, w') => (Abort (status_of_exn x), teardown w')
                  end).2 = flashes w ++ [(msg, "error")].
Proof.
  destruct out as [[x|r] w']; intros (Hr & Ht & _ & Hfl); simpl in *; [done|].
  by simplify_eq.
Qed.

Lemma edit_unknown_id h i m f w :
  is_admin (session w) = true →
  is_readonly (session w) = false →
  idle w →
  find (has_id i) (table w) = None →
  serve h (ReqEdit i m f) w =
    (Abort (if int64 (Some i) then 404 else 500), teardown w).
Proof.
  intros Ha Hro (Hl & _ & _) Hnone. rewrite serve_admin by done.
  rewrite edit_view_not_found; [by destruct (int64 (Some i))| |done].
  by rewrite Hl, lookup_empty.
Qed.

(** C1: a create attempt of an admin session that is not read-only, whose
    two dates parse with the check-out not after the check-in, stores
    nothing: the table is as before, and the answer is a redirect to the
    add form with a notice of category error. *)
Theorem add_rejects_unordered_dates h f w :
  is_admin (session w) = true →
  is_readonly (session w) = false →
  fails_validation h f = true →
  (serve h (ReqAdd POST f) w).1 = Redirect EpAddReservation ∧
  table (serve h (ReqAdd POST f) w).2 = table w ∧
  ∃ msg, flashes (serve h (ReqAdd POST f) w).2 = flashes w ++ [(msg, "error")].
Proof.
  intros Ha Hro Hf. rewrite serve_admin by done.
  apply rejected_served, add_view_rejects. by rewrite Hf.
Qed.

(** C2: an update attempt of an admin session that is not read-only, on an
    id that is stored, which fails validation or fails parsing, leaves the
    table as it was, so the row of that id keeps all its values, and is
    answered by a redirect to the edit form of the same id with a notice of
    category error.  Failing is meant under the parsers of the host,
    whatever texts they take for dates and numbers. *)
Theorem edit_failure_keeps_record h i f w row :
  is_admin (session w) = true →
  is_readonly (session w) = false →
  find (has_id i) (table w) = Some row →
  fails_validation h f = true ∨ fails_parsing h f = true →
  (serve h (ReqEdit i POST f) w).1 = Redirect (EpEditReservation i) ∧
  table (serve h (ReqEdit i POST f) w).2 = table w ∧
  find (has_id i) (table (serve h (ReqEdit i POST f) w).2) = Some row ∧
  ∃ msg, flashes (serve h (ReqEdit i POST f) w).2 = flashes w ++ [(msg, "error")].
Proof.
  intros Ha Hro Hrow Hf. rewrite serve_admin by done.
  destruct (rejected_served (EpEditReservation i) w
              (edit_reservation_view i (env_of h (ReqEdit i POST f)) w))
    as (Hr & Ht & Hfl).
  { apply edit_view_rejects; [by eexists|].
    destruct Hf as [->| ->]; [done|]. by rewrite orb_true_r. }
  repeat split; [done..| |done]. by rewrite Ht.
Qed.

Lemma add_rejects_unordered_dates_witness :
  (serve some_host (ReqAdd POST swapped_form) (admin_world [])).1
    = Redirect EpAddReservation ∧
  table (serve some_host (ReqAdd POST swapped_form) (admin_world [])).2 = [] ∧
  ∃ msg, flashes (serve some_host (ReqAdd POST swapped_form) (admin_world [])).2
           = [] ++ [(msg, "error")].
Proof.
  exact (add_rejects_unordered_dates some_host swapped_form (admin_world [])
           eq_refl eq_refl eq_refl).
Defined.

Lemma edit_failure_keeps_record_witness :
  (serve some_host (ReqEdit 1 POST swapped_form) (admin_world [smith_row])).1
    = Redirect (EpEditReservation 1) ∧
  find (has_id 1)
    (table (serve some_host (ReqEdit 1 POST swapped_form) (admin_world [smith_row])).2)
    = Some smith_row.
Proof.
  pose proof (edit_failure_keeps_record some_host 1 swapped_form
                (admin_world [smith_row]) smith_row eq_refl eq_refl eq_refl
                (or_introl eq_refl)) as H.
  exact (conj (proj1 H) (proj1 (proj2 (proj2 H)))).
Defined.

(** ** Required fields *)

(** C6, as the code has it: [guest_name] and [platform] are required as
    fields of the form.  A create or update attempt of an admin session
    that is not read-only whose form lacks one of them leaves the table as
    it was and is sent back to its form with a notice of category error.
    The values themselves are not looked at. *)
Theorem required_fields_checked h f w :
  is_admin (session w) = true →
  is_readonly (session w) = false →
  f !! "guest_name" = None ∨ f !! "platform" = None →
  ((serve h (ReqAdd POST f) w).1 = Redirect EpAddReservation ∧
   table (serve h (ReqAdd POST f) w).2 = table w ∧
   ∃ msg, flashes (serve h (ReqAdd POST f) w).2 = flashes w ++ [(msg, "error")]) ∧
  (∀ i, is_Some (find (has_id i) (table w)) →
     (serve h (ReqEdit i POST f) w).1 = Redirect (EpEditReservation i) ∧
     table (serve h (ReqEdit i POST f) w).2 = table w ∧
     ∃ msg, flashes (serve h (ReqEdit i POST f) w).2 = flashes w ++ [(msg, "error")]).
Proof.
  intros Ha Hro Hf.
  assert (fails_validation h f || fails_parsing h f = true) as Hfail.
  { apply orb_true_iff. right. unfold fails_parsing.
    destruct Hf as [-> | ->]; simpl; [done|].
    by rewrite andb_false_r. }
  split.
  - rewrite serve_admin by done. by apply rejected_served, add_view_rejects.
  - intros i Hi. rewrite serve_admin by done.
    by apply rejected_served, edit_view_rejects.
Qed.

Lemma required_fields_checked_witness :
  (serve some_host (ReqAdd POST (delete "guest_name" smith_form)) (admin_world [])).1
    = Redirect EpAddReservation ∧
  table (serve some_host (ReqAdd POST (delete "guest_name" smith_form))
           (admin_world [])).2 = [].
Proof.
  pose proof (required_fields_checked some_host (delete "guest_name" smith_form)
                (admin_world []) eq_refl eq_refl (or_introl eq_refl)) as H.
  exact (conj (proj1 (proj1 H)) (proj1 (proj2 (proj1 H)))).
Defined.

(** C6, as stated, fails: a create attempt with an empty guest name and an
    empty platform is stored, and so is an update to empty values. *)
Lemma empty_guest_name_is_stored :
  let f := <["guest_name" := EmptyString]> (<["platform" := EmptyString]> smith_form) in
  f !! "guest_name" = Some EmptyString ∧
  f !! "platform" = Some EmptyString ∧
  serve some_host (ReqAdd POST f) (admin_world []) =
    (Redirect EpIndex,
     World admin_session [("Reservation added successfully!", "success")]
       [mkReservation (Some 1) EmptyString EmptyString (Date 2024 3 1) (Date 2024 3 5)
          (Some 2) (Some 0) (Some EmptyString) (Some EmptyString) (Some 0)] ∅ [] []) ∧
  serve some_host (ReqEdit 1 POST f) (admin_world [smith_row]) =
    (Redirect EpIndex,
     World admin_session [("Reservation updated successfully!", "success")]
       [mkReservation (Some 1) EmptyString EmptyString (Date 2024 3 1) (Date 2024 3 5)
          (Some 2) (Some 0) (Some EmptyString) (Some EmptyString) (Some 0)] ∅ [] []).
Proof. intros f. repeat split; vm_compute; reflexivity. Qed.

(** ** Dates as text *)

Lemma digit_cases (d : Z) :
  0 <= d <= 9 →
  d = 0 ∨ d = 1 ∨ d = 2 ∨ d = 3 ∨ d = 4 ∨ d = 5 ∨ d = 6 ∨ d = 7 ∨ d = 8 ∨ d = 9.
Proof. lia. Qed.

Lemma digit_val_char (d : Z) : 0 <= d <= 9 → digit_val (digit_char d) = Some d.
Proof.
  intros H. destruct (digit_cases d H) as [->|[->|[->|[->|[->|[->|[->|[->|[->| ->]]]]]]]]];
    reflexivity.
Qed.

Lemma mod10_digit (x : Z) : 0 <= x mod 10 <= 9.
Proof. pose proof (Z.mod_pos_bound x 10). lia. Qed.

Lemma is_digit_char (d : Z) : 0 <= d <= 9 → is_digit (digit_char d) = true.
Proof. intros H. unfold is_digit. by rewrite digit_val_char. Qed.

Lemma zero_pad_4 (y : Z) :
  zero_pad 4 y =
    String (digit_char (y / 10 / 10 / 10 mod 10))
      (String (digit_char (y / 10 / 10 mod 10))
         (String (digit_char (y / 10 mod 10))
            (String (digit_char (y mod 10)) EmptyString))).
Proof. reflexivity. Qed.

Lemma valid_date_bounds (d : date) :
  valid_date d = true →
  1 <= year d <= 9999 ∧ 1 <= month d <= 12 ∧ 1 <= day d <= 31.
Proof.
  unfold valid_date, days_in_month. intros H.
  repeat (apply andb_true_iff in H; destruct H as [H ?]).
  repeat match goal with
         | H : (_ <=? _) = true |- _ => apply Z.leb_le in H
         end.
  repeat case_match; lia.
Qed.

Lemma month_cases (m : Z) :
  1 <= m <= 12 →
  m = 1 ∨ m = 2 ∨ m = 3 ∨ m = 4 ∨ m = 5 ∨ m = 6 ∨ m = 7 ∨ m = 8 ∨ m = 9 ∨
  m = 10 ∨ m = 11 ∨ m = 12.
Proof. lia. Qed.

Lemma day_cases (d : Z) :
  1 <= d <= 31 → d ∈ seqZ 1 31.
Proof. intros H. apply elem_of_seqZ. lia. Qed.

Arguments zero_pad : simpl never.

Lemma match_month_pad (m : Z) (r : string) :
  1 <= m <= 12 → match_month (String.append (zero_pad 2 m) (String "-" r)) = Some (m, r).
Proof.
  intros H. destruct (month_cases m H)
    as [->|[->|[->|[->|[->|[->|[->|[->|[->|[->|[->| ->]]]]]]]]]]]; reflexivity.
Qed.

Lemma match_day_pad (d : Z) :
  1 <= d <= 31 → match_day (zero_pad 2 d) = Some (d, EmptyString).
Proof.
  intros H. apply day_cases in H. revert d H. apply Forall_forall.
  refine (bool_decide_unpack _ _). vm_compute. exact I.
Qed.

Lemma two_digits_pad (n : Z) :
  0 <= n <= 99 →
  ∃ a b, zero_pad 2 n = String a (String b EmptyString) ∧ two_digits a b = Some n.
Proof.
  intros H. eexists _, _. split; [reflexivity|].
  unfold two_digits. rewrite !digit_val_char by apply mod10_digit.
  f_equal. Z.to_euclidean_division_equations. lia.
Qed.

(** [isoformat] of a date gives text of the ISO-8601 shape, and parsing
    that text with the format of the forms gives the date back. *)
Lemma isoformat_iso8601 (d : date) :
  valid_date d = true → iso8601_date (isoformat d) = true.
Proof.
  intros Hv. destruct (valid_date_bounds d Hv) as (Hy & Hm & Hd).
  unfold isoformat. rewrite zero_pad_4.
  destruct (two_digits_pad (month d)) as (m1 & m0 & -> & Hmm); [lia|].
  destruct (two_digits_pad (day d)) as (d1 & d0 & -> & Hdd); [lia|].
  simpl. rewrite Hmm, Hdd.
  rewrite !is_digit_char by apply mod10_digit. simpl.
  repeat (apply andb_true_iff; split); lia.
Qed.

Lemma strptime_isoformat (d : date) :
  valid_date d = true → ascii_strptime (isoformat d) = Some d.
Proof.
  intros Hv. destruct (valid_date_bounds d Hv) as (Hy & Hm & Hd).
  unfold isoformat. rewrite zero_pad_4. unfold ascii_strptime. simpl.
  rewrite !digit_val_char by apply mod10_digit.
  rewrite (match_month_pad (month d) (zero_pad 2 (day d))) by done.
  rewrite match_day_pad by done.
  replace ((((year d / 10 / 10 / 10 mod 10) * 10 + year d / 10 / 10 mod 10) * 10
            + year d / 10 mod 10) * 10 + year d mod 10) with (year d)
    by (Z.to_euclidean_division_equations; lia).
  unfold date_new. destruct d as [y m dd]; simpl in *. by rewrite Hv.
Qed.

(** ** The JSON listing *)

(** C8: whatever the session, the JSON route answers with an array that
    has one element per stored row, in the order of the table.  The element
    of a row is a mapping with the nine keys [id], [guest_name],
    [platform], [check_in], [check_out], [adults], [children],
    [special_requests] and [notes], each with the value of the row (a
    column without value gives null), where [check_in] and [check_out] are
    the [isoformat] texts of the row's dates; these have the ISO-8601 shape
    and parse back to the dates.  The table is not changed. *)
Theorem api_reservations_lists_all h w :
  dates_valid (table w) →
  let num := λ o : option Z, match o with Some n => JInt n | None => JNull end in
  let txt := λ o : option string, match o with Some s => JStr s | None => JNull end in
  ∃ items,
    (serve h ReqApiReservations w).1 = Jsonify (JList items) ∧
    table (serve h ReqApiReservations w).2 = table w ∧
    (∀ s, (serve h ReqApiReservations (with_session (λ _, s) w)).1
            = Jsonify (JList items)) ∧
    length items = length (table w) ∧
    ∀ k r, table w !! k = Some r →
      items !! k =
        Some (JDict [ ("id", num (id r));
                      ("guest_name", JStr (guest_name r));
                      ("platform", JStr (platform r));
                      ("check_in", JStr (isoformat (check_in r)));
                      ("check_out", JStr (isoformat (check_out r)));
                      ("adults", num (adults r));
                      ("children", num (children r));
                      ("special_requests", txt (special_requests r));
                      ("notes", txt (notes r)) ]) ∧
      items !! k = Some (JDict (to_dict r)) ∧
      dict_get "check_in" (to_dict r) = Some (JStr (isoformat (check_in r))) ∧
      dict_get "check_out" (to_dict r) = Some (JStr (isoformat (check_out r))) ∧
      iso8601_date (isoformat (check_in r)) = true ∧
      iso8601_date (isoformat (check_out r)) = true ∧
      ascii_strptime (isoformat (check_in r)) = Some (check_in r) ∧
      ascii_strptime (isoformat (check_out r)) = Some (check_out r).
Proof.
  intros Hv num txt. exists ((λ r, JDict (to_dict r)) <$> table w).
  split; [done|]. split; [done|]. split; [done|].
  split; [by rewrite length_fmap|].
  intros k r Hk. split; [by rewrite list_lookup_fmap, Hk|].
  split; [by rewrite list_lookup_fmap, Hk|].
  split; [done|]. split; [done|].
  unfold dates_valid in Hv. rewrite Forall_lookup in Hv.
  destruct (Hv k r Hk) as [Hci Hco].
  auto using isoformat_iso8601, strptime_isoformat.
Qed.

Lemma api_reservations_lists_all_witness :
  ∃ items,
    (serve some_host ReqApiReservations (fresh_world [smith_row])).1
      = Jsonify (JList items) ∧
    length items = 1%nat ∧
    items !! 0%nat =
      Some (JDict [ ("id", JInt 1); ("guest_name", JStr "A. Smith");
                    ("platform", JStr "Airbnb"); ("check_in", JStr "2024-03-01");
                    ("check_out", JStr "2024-03-05"); ("adults", JInt 2);
                    ("children", JInt 0); ("special_requests", JStr EmptyString);
                    ("notes", JStr EmptyString) ]) ∧
    iso8601_date (isoformat (check_in smith_row)) = true.
Proof.
  destruct (api_reservations_lists_all some_host (fresh_world [smith_row]))
    as (items & Hresp & _ & _ & Hlen & Hrows).
  { repeat constructor. }
  exists items. destruct (Hrows 0%nat smith_row eq_refl) as (Hi & _ & _ & _ & Hiso & _).
  exact (conj Hresp (conj Hlen (conj Hi Hiso))).
Defined.

(** ** The listing and the calendar *)

#[global] Instance by_check_in_total : Total by_check_in.
Proof.
  intros a b. unfold by_check_in, date_le, date_leb.
  destruct (check_in a) as [y1 m1 d1], (check_in b) as [y2 m2 d2]. simpl.
  lia.
Qed.

#[global] Instance by_check_in_trans : Transitive by_check_in.
Proof.
  intros a b c. unfold by_check_in, date_le, date_leb.
  destruct (check_in a) as [y1 m1 d1], (check_in b) as [y2 m2 d2],
    (check_in c) as [y3 m3 d3]. simpl.
  lia.
Qed.

Lemma insert_by_check_in_perm r l : insert_by_check_in r l ≡ₚ r :: l.
Proof.
  induction l as [|x l IH]; simpl; [done|].
  destruct (date_leb (check_in r) (check_in x)); [done|].
  rewrite IH. apply Permutation_swap.
Qed.

Lemma order_by_check_in_perm t : order_by_check_in t ≡ₚ t.
Proof.
  induction t as [|x t IH]; simpl; [done|].
  by rewrite insert_by_check_in_perm, IH.
Qed.

Lemma insert_by_check_in_hd x r l :
  by_check_in x r → HdRel by_check_in x l → HdRel by_check_in x (insert_by_check_in r l).
Proof.
  intros Hxr Hl. destruct l as [|y l]; simpl; [by constructor|].
  destruct (date_leb (check_in r) (check_in y)); constructor; [done|].
  by inversion Hl.
Qed.

Lemma insert_by_check_in_sorted r l :
  Sorted by_check_in l → Sorted by_check_in (insert_by_check_in r l).
Proof.
  induction 1 as [|x l Hl IH Hx]; simpl; [by repeat constructor|].
  destruct (date_leb (check_in r) (check_in x)) eqn:Hrx.
  - constructor; [by constructor|]. by constructor.
  - constructor; [done|]. apply insert_by_check_in_hd; [|done].
    destruct (total by_check_in x r) as [?|Hrx']; [done|].
    unfold by_check_in, date_le in Hrx'. congruence.
Qed.

Lemma order_by_check_in_sorted t : StronglySorted by_check_in (order_by_check_in t).
Proof.
  apply Sorted_StronglySorted; [apply _|].
  induction t as [|x t IH]; simpl; [constructor|].
  by apply insert_by_check_in_sorted.
Qed.

(** Rows that are in order already stay as they are: rows of the same
    check-in keep the order of the table. *)
Lemma order_by_check_in_sorted_id t :
  Sorted by_check_in t → order_by_check_in t = t.
Proof.
  induction 1 as [|x l Hl IH Hx]; simpl; [done|]. rewrite IH.
  destruct Hx as [|y l' Hxy]; simpl; [done|].
  unfold by_check_in, date_le in Hxy. by rewrite Hxy.
Qed.

(** C9: for a session with one of the two flags set, the listing and the
    calendar hand their templates all stored reservations in ascending
    order of check-in, the two flags of the session, and the date of the
    day. *)
Theorem listing_and_calendar_sorted h w :
  is_admin (session w) = true ∨ is_readonly (session w) = true →
  ∃ reservations,
    (serve h ReqIndex w).1 =
      Render "index.html"
        (ListingArgs reservations (is_readonly (session w)) (is_admin (session w))
           (host_today h)) ∧
    (serve h ReqCalendar w).1 =
      Render "calendar.html"
        (ListingArgs reservations (is_readonly (session w)) (is_admin (session w))
           (host_today h)) ∧
    StronglySorted by_check_in reservations ∧
    reservations ≡ₚ table w.
Proof.
  intros Hs. exists (order_by_check_in (table w)).
  assert (negb (is_admin (session w)) && negb (is_readonly (session w)) = false) as Hg.
  { destruct Hs as [-> | ->]; [done|]. apply andb_false_r. }
  unfold is_admin, is_readonly in *.
  split; [|split; [|split]].
  - unfold serve, view_of, index, mbind, M_bind, session_get. simpl. by rewrite Hg.
  - unfold serve, view_of, calendar_view, mbind, M_bind, session_get. simpl.
    by rewrite Hg.
  - apply order_by_check_in_sorted.
  - apply order_by_check_in_perm.
Qed.

Lemma listing_and_calendar_sorted_witness :
  ∃ reservations,
    (serve some_host ReqIndex (World readonly_session [] [smith_row] ∅ [] [])).1 =
      Render "index.html" (ListingArgs reservations true false (Date 2024 1 1)) ∧
    StronglySorted by_check_in reservations ∧
    reservations ≡ₚ [smith_row].
Proof.
  destruct (listing_and_calendar_sorted some_host
              (World readonly_session [] [smith_row] ∅ [] []) (or_intror eq_refl))
    as (rs & Hi & _ & Hs & Hp).
  exists rs. exact (conj Hi (conj Hs Hp)).
Defined.

(** ** The storage engine *)

Lemma flushed_row_empty (row : Reservation) : flushed_row ∅ row = row.
Proof.
  unfold flushed_row. destruct (id row) as [i|]; simpl; [|done].
  by rewrite lookup_empty.
Qed.

Lemma flushed_table_empty (t : list Reservation) : flushed_row ∅ <$> t = t.
Proof.
  induction t as [|x t IH]; [done|]. rewrite fmap_cons, IH.
  by rewrite flushed_row_empty.
Qed.

(** A loaded object replaces the rows of its key and no other. *)
Lemma flushed_row_one (objs : gmap Z Reservation) i o row :
  objs !! i = Some o →
  (∀ j, j ≠ i → objs !! j = None) →
  flushed_row objs row = if has_id i row then o else row.
Proof.
  intros Hi Hother. unfold flushed_row, has_id.
  destruct (id row) as [j|]; simpl; [|done].
  case_bool_decide as Hj.
  - simplify_eq. by rewrite Hi.
  - rewrite Hother; [done|]. congruence.
Qed.

Lemma not_deleted_nil (l : list Reservation) :
  filter (λ r, is_deleted [] r = false) l = l.
Proof.
  induction l as [|x l IH]; [done|].
  rewrite filter_cons_True, IH; [done|].
  unfold is_deleted. destruct (id x); [|done].
  apply bool_decide_eq_false_2. apply not_elem_of_nil.
Qed.

Lemma written_rows_in (t l : list Reservation) (P : Reservation → bool) :
  (∀ x, x ∈ l → x ∈ t ∨ P x = true) →
  forallb (λ r, bool_decide (r ∈ t) || P r) l = true.
Proof.
  induction l as [|x l IH]; intros H; [done|]. simpl.
  rewrite IH by (intros y Hy; apply H; by right).
  destruct (H x) as [Hx| ->]; [by left| |].
  - by rewrite bool_decide_eq_true_2.
  - by rewrite orb_true_r.
Qed.

(** *** Row ids *)

Lemma foldr_max_ge (k0 : Z) (ks : list Z) :
  k0 ≤ foldr Z.max k0 ks ∧ ∀ y, y ∈ ks → y ≤ foldr Z.max k0 ks.
Proof.
  induction ks as [|k ks [IH0 IH]]; simpl.
  - split; [lia|]. by intros y ?%elem_of_nil.
  - split; [lia|]. intros y [->|Hy]%elem_of_cons; [lia|].
    specialize (IH y Hy). lia.
Qed.

Lemma foldr_max_in (k0 : Z) (ks : list Z) : foldr Z.max k0 ks ∈ k0 :: ks.
Proof.
  induction ks as [|k ks IH]; simpl; [by left|].
  destruct (Z.max_spec k (foldr Z.max k0 ks)) as [[_ ->]|[_ ->]].
  - apply elem_of_cons in IH as [->|IH]; [by left|]. by do 2 right.
  - right. by left.
Qed.

(** Every id in use is at most the largest, and the largest is in use. *)
Lemma largest_id_above (t : list Reservation) x k :
  x ∈ t → id x = Some k → ∃ m, largest_id t = Some m ∧ k ≤ m.
Proof.
  intros Hx Hk. assert (k ∈ omap id t) as Hin.
  { apply list_elem_of_omap. by exists x. }
  unfold largest_id. destruct (omap id t) as [|k0 ks]; [by apply elem_of_nil in Hin|].
  eexists. split; [done|]. destruct (foldr_max_ge k0 ks) as [H0 Hks].
  apply elem_of_cons in Hin as [->|Hin]; auto.
Qed.

Lemma largest_id_in (t : list Reservation) m :
  largest_id t = Some m → ∃ x, x ∈ t ∧ id x = Some m.
Proof.
  unfold largest_id. destruct (omap id t) as [|k0 ks] eqn:Hids; [done|].
  intros [= <-]. pose proof (foldr_max_in k0 ks) as Hin. rewrite <- Hids in Hin.
  by apply list_elem_of_omap in Hin.
Qed.

Lemma next_id_above (t : list Reservation) x k :
  x ∈ t → id x = Some k → k < next_id t.
Proof.
  intros Hx Hk. destruct (largest_id_above t x k Hx Hk) as (m & Hm & Hle).
  unfold next_id. rewrite Hm. lia.
Qed.

Lemma next_id_not_stored (t : list Reservation) :
  Some (next_id t) ∉ id <$> t.
Proof.
  intros Hin. apply list_elem_of_fmap in Hin as (x & Hid & Hx).
  pose proof (next_id_above t x (next_id t) Hx (eq_sym Hid)). lia.
Qed.

(** The id of a new row is an id no stored row has. *)
Lemma new_rowid_fresh pick (t : list Reservation) k :
  new_rowid pick t = Some k → Some k ∉ id <$> t.
Proof.
  unfold new_rowid. case_bool_decide.
  - case_match eqn:Hc; [|done]. intros [= <-].
    apply andb_true_iff in Hc as [_ Hc]. by apply bool_decide_eq_true in Hc.
  - intros [= <-]. apply next_id_not_stored.
Qed.

(** Below the largest row id, the new id is the next one. *)
Lemma new_rowid_below pick (t : list Reservation) :
  below_max t → new_rowid pick t = Some (next_id t).
Proof.
  intros Hb. unfold new_rowid. rewrite bool_decide_eq_false_2; [done|].
  intros (x & Hx & Hid)%largest_id_in. specialize (Hb x _ Hx Hid). lia.
Qed.

Lemma place_perm row (t : list Reservation) : place row t ≡ₚ row :: t.
Proof.
  induction t as [|x t IH]; simpl; [done|].
  destruct (id_before row x); [done|]. rewrite IH. apply Permutation_swap.
Qed.

Lemma place_last row (t : list Reservation) :
  (∀ x, x ∈ t → id_before row x = false) → place row t = t ++ [row].
Proof.
  induction t as [|x t IH]; intros H; simpl; [done|].
  rewrite H by (by left). f_equal. apply IH. intros y Hy. apply H. by right.
Qed.

(** The row of the next id goes to the end of the table. *)
Lemma place_next now (t : list Reservation) r :
  place (inserted_row now (next_id t) r) t = t ++ [inserted_row now (next_id t) r].
Proof.
  apply place_last. intros x Hx. unfold id_before. simpl.
  destruct (id x) as [k|] eqn:Hk; [|done].
  pose proof (next_id_above t x k Hx Hk). lia.
Qed.

Lemma storable_inserted now k r : storable (inserted_row now k r) = storable r.
Proof. done. Qed.

(** *** Commits *)

(** The commit of one pending insert on an otherwise clean ORM session. *)
Lemma commit_insert e w r :
  loaded w = ∅ → added w = [r] → deleted w = [] →
  ∃ objs, db_commit e w =
    if storable r then
      match new_rowid (rowid e) (table w) with
      | Some k =>
          (inr (), World (session w) (flashes w)
                     (place (inserted_row (utcnow e) k r) (table w)) objs [] [])
      | None => (inl OperationalError, w)
      end
    else (inl OverflowError, w).
Proof.
  intros Hl Ha Hd. unfold db_commit. rewrite Hl, Ha, Hd, flushed_table_empty.
  rewrite written_rows_in by auto. simpl. rewrite andb_true_r.
  destruct (storable r); [|by exists ∅].
  destruct (new_rowid (rowid e) (table w)) as [k|]; simpl; [|by exists ∅].
  rewrite not_deleted_nil. by eexists.
Qed.

(** ** Creating a reservation *)

Lemma form_fields_Some h f r :
  form_fields h f = Some r →
  ∃ cit cot adt cht ad ch,
    f !! "guest_name" = Some (guest_name r) ∧
    f !! "platform" = Some (platform r) ∧
    f !! "check_in" = Some cit ∧ read_date (host_strptime h) cit = Some (check_in r) ∧
    f !! "check_out" = Some cot ∧ read_date (host_strptime h) cot = Some (check_out r) ∧
    f !! "adults" = Some adt ∧ host_int h adt = Some ad ∧
    f !! "children" = Some cht ∧ host_int h cht = Some ch ∧
    r = mkReservation None (guest_name r) (platform r) (check_in r) (check_out r)
          (Some ad) (Some ch)
          (Some (default EmptyString (f !! "special_requests")))
          (Some (default EmptyString (f !! "notes"))) None.
Proof.
  unfold form_fields. intros H.
  destruct (f !! "guest_name") as [g|]; simpl in H; [|done].
  destruct (f !! "platform") as [p|]; simpl in H; [|done].
  destruct (f !! "check_in") as [cit|]; simpl in H; [|done].
  destruct (read_date (host_strptime h) cit) as [ci|] eqn:Hci; simpl in H; [|done].
  destruct (f !! "check_out") as [cot|]; simpl in H; [|done].
  destruct (read_date (host_strptime h) cot) as [co|] eqn:Hco; simpl in H; [|done].
  destruct (f !! "adults") as [adt|]; simpl in H; [|done].
  destruct (host_int h adt) as [ad|] eqn:Had; simpl in H; [|done].
  destruct (f !! "children") as [cht|]; simpl in H; [|done].
  destruct (host_int h cht) as [ch|] eqn:Hch; simpl in H; [|done].
  simplify_eq. simpl. by exists cit, cot, adt, cht, ad, ch.
Qed.

Lemma form_fields_None h f : form_fields h f = None → fails_parsing h f = true.
Proof.
  unfold form_fields, fails_parsing. intros H.
  destruct (f !! "guest_name") as [g|]; simpl in *; [|done].
  destruct (f !! "platform") as [p|]; simpl in *; [|done].
  destruct (f !! "check_in") as [cit|]; simpl in *; [|done].
  destruct (read_date (host_strptime h) cit) as [ci|]; simpl in *; [|done].
  destruct (f !! "check_out") as [cot|]; simpl in *; [|done].
  destruct (read_date (host_strptime h) cot) as [co|]; simpl in *; [|done].
  destruct (f !! "adults") as [adt|]; simpl in *; [|done].
  destruct (host_int h adt) as [ad|]; simpl in *; [|done].
  destruct (f !! "children") as [cht|]; simpl in *; [|done].
  destruct (host_int h cht) as [ch|]; simpl in *; done.
Qed.

Lemma form_fields_unordered h f r :
  form_fields h f = Some r → ordered r = false → fails_validation h f = true.
Proof.
  intros Hf Ho. destruct (form_fields_Some h f r Hf)
    as (cit & cot & adt & cht & ad & ch & _ & _ & Hci & Hcid & Hco & Hcod & _).
  unfold fails_validation, parsed_dates. rewrite Hci, Hco. simpl.
  rewrite Hcid, Hcod. simpl. unfold ordered in Ho.
  by destruct (date_leb (check_out r) (check_in r)).
Qed.

(** The create view on a form that parses: the date check, then the
    commit of the new object. *)
Lemma add_view_parsed h f w r :
  form_fields h f = Some r →
  add_reservation_view () (env_of h (ReqAdd POST f)) w =
    if date_leb (check_out r) (check_in r)
    then (inr (Redirect EpAddReservation),
          with_flashes
            (λ l, l ++ [("Check-out date must be after check-in date!", "error")]) w)
    else
      match db_commit (env_of h (ReqAdd POST f)) (with_added (λ l, l ++ [r]) w) with
      | (inr _, w') =>
          (inr (Redirect EpIndex),
           with_flashes (λ l, l ++ [("Reservation added successfully!", "success")]) w')
      | (inl x, w') =>
          (inr (Redirect EpAddReservation),
           with_flashes
             (λ l, l ++ [("Error adding reservation: " +:+ host_str h x, "error")]) w')
      end.
Proof.
  intros Hf. destruct (form_fields_Some h f r Hf)
    as (cit & cot & adt & cht & ad & ch & Hg & Hp & Hci & Hcid & Hco & Hcod
        & Had & Hadv & Hch & Hchv & Hr).
  unfold add_reservation_view. unfold_view.
  rewrite Hg, Hp, Hci. simpl. rewrite Hcid, Hco. simpl. rewrite Hcod, Had. simpl.
  rewrite Hadv, Hch. simpl. rewrite Hchv. simpl. rewrite <- Hr.
  destruct (date_leb (check_out r) (check_in r)); [done|].
  by destruct (db_commit _ _) as [[x|[]] w'].
Qed.

Lemma accepted_Some h f r :
  accepted h f = Some r →
  form_fields h f = Some r ∧ ordered r = true ∧ storable r = true.
Proof.
  unfold accepted. destruct (form_fields h f) as [r'|]; simpl; [|done].
  destruct (ordered r') eqn:?, (storable r') eqn:?; simpl; intros; by simplify_eq.
Qed.

Lemma accepted_None h f :
  accepted h f = None →
  form_fields h f = None ∨
  ∃ r, form_fields h f = Some r ∧ (ordered r = false ∨ storable r = false).
Proof.
  unfold accepted. destruct (form_fields h f) as [r|]; simpl; [|by left].
  destruct (ordered r) eqn:?, (storable r) eqn:?; simpl; intros; try done; right; eauto.
Qed.

(** What a rejection by the view leaves of the world. *)
Lemma rejected_settled target w out :
  idle w →
  rejected target w out →
  ∃ msg,
    match out with
    | (inr r, w') => (r, teardown w')
    | (inl x, w') => (Abort (status_of_exn x), teardown w')
    end = (Redirect target, settled (session w) (flashes w ++ [(msg, "error")]) (table w)).
Proof.
  intros _ (Hr & Ht & Hs & msg & Hfl).
  destruct out as [[x|r] w']; simpl in *; [done|].
  exists msg. unfold teardown, settled. simplify_eq. by rewrite Ht, Hs, Hfl.
Qed.

(** A create attempt of an admin session that is not read-only, on a
    world with nothing pending: the whole request, by whether the form is
    accepted and the engine has an id for the row. *)
Lemma add_post_run h f w :
  is_admin (session w) = true →
  is_readonly (session w) = false →
  idle w →
  match accepted h f, new_rowid (host_rowid h) (table w) with
  | Some r, Some k =>
      serve h (ReqAdd POST f) w =
        (Redirect EpIndex,
         settled (session w)
           (flashes w ++ [("Reservation added successfully!", "success")])
           (place (inserted_row (host_utcnow h) k r) (table w)))
  | _, _ =>
      ∃ msg, serve h (ReqAdd POST f) w =
        (Redirect EpAddReservation,
         settled (session w) (flashes w ++ [(msg, "error")]) (table w))
  end.
Proof.
  intros Ha Hro Hidle. pose proof Hidle as (Hl & Hadd & Hdel).
  rewrite serve_admin by done.
  assert (∀ r, added (with_added (λ l, l ++ [r]) w) = [r]) as Hadd'.
  { intros r. simpl. by rewrite Hadd. }
  pose proof (λ r, commit_insert (env_of h (ReqAdd POST f))
                     (with_added (λ l, l ++ [r]) w) r Hl (Hadd' r) Hdel) as Hc.
  destruct (accepted h f) as [r|] eqn:Hacc.
  - apply accepted_Some in Hacc as (Hf & Ho & Hst).
    unfold ordered in Ho. apply negb_true_iff in Ho.
    destruct (Hc r) as [objs Hcr]. rewrite Hst in Hcr.
    assert (new_rowid (rowid (env_of h (ReqAdd POST f)))
              (table (with_added (λ l, l ++ [r]) w))
            = new_rowid (host_rowid h) (table w)) as Hk by done.
    rewrite Hk in Hcr.
    destruct (new_rowid (host_rowid h) (table w)) as [k|].
    + rewrite (add_view_parsed h f w r Hf), Ho, Hcr. done.
    + apply rejected_settled; [done|].
      rewrite (add_view_parsed h f w r Hf), Ho, Hcr. rejected_now.
  - apply rejected_settled; [done|].
    apply accepted_None in Hacc as [Hf|(r & Hf & [Ho|Hst])].
    + apply add_view_rejects. by rewrite (form_fields_None h f Hf), orb_true_r.
    + apply add_view_rejects. by rewrite (form_fields_unordered h f r Hf Ho).
    + rewrite (add_view_parsed h f w r Hf).
      destruct (date_leb (check_out r) (check_in r)); [rejected_now|].
      destruct (Hc r) as [objs Hcr]. rewrite Hst in Hcr. rewrite Hcr. rejected_now.
Qed.

(** ** Updating a reservation *)

(** A commit with no pending insert: the changed objects must fit. *)
Lemma commit_no_inserts e w :
  added w = [] →
  db_commit e w =
    let updated := flushed_row (loaded w) <$> table w in
    if forallb (λ r, bool_decide (r ∈ table w) || storable r) updated
    then (inr (), World (session w) (flashes w)
                    (filter (λ r, is_deleted (deleted w) r = false) updated)
                    (persistent (loaded w) (filter (λ r, r ∉ updated) updated)
                       (filter (λ r, is_deleted (deleted w) r = false) updated))
                    [] [])
    else (inl OverflowError, w).
Proof. intros Ha. unfold db_commit. rewrite Ha. simpl. by rewrite andb_true_r. Qed.

(** The commit of one changed object on an otherwise clean ORM session. *)
Lemma commit_update e w i o :
  loaded w !! i = Some o →
  (∀ j, j ≠ i → loaded w !! j = None) →
  added w = [] → deleted w = [] →
  storable o = true →
  ∃ objs, db_commit e w =
    (inr (), World (session w) (flashes w)
               ((λ x, if has_id i x then o else x) <$> table w) objs [] []).
Proof.
  intros Hi Hother Ha Hd Hst. rewrite commit_no_inserts by done. cbv zeta.
  rewrite Hd, not_deleted_nil.
  rewrite (list_fmap_ext (flushed_row (loaded w)) (λ x, if has_id i x then o else x))
    by (intros k x _; by apply flushed_row_one).
  rewrite written_rows_in; [by eexists|].
  intros x' Hx'. apply list_elem_of_fmap in Hx' as (x & -> & Hx).
  destruct (has_id i x); auto.
Qed.

(** An accepted update of a stored id, on a world with nothing pending:
    the whole request. *)
Lemma edit_post_run h i f w row r :
  is_admin (session w) = true →
  is_readonly (session w) = false →
  idle w →
  find (has_id i) (table w) = Some row →
  accepted h f = Some r →
  serve h (ReqEdit i POST f) w =
    (Redirect EpIndex,
     settled (session w)
       (flashes w ++ [("Reservation updated successfully!", "success")])
       ((λ x, if has_id i x then edited_row r row else x) <$> table w)).
Proof.
  intros Ha Hro (Hl & Hadd & Hdel) Hrow Hacc. rewrite serve_admin by done.
  apply accepted_Some in Hacc as (Hf & Ho & Hst).
  rewrite (edit_view_found _ _ _ row) by (by rewrite ?Hl, ?lookup_empty).
  destruct (form_fields_Some h f r Hf)
    as (cit & cot & adt & cht & ad & ch & Hg & Hp & Hci & Hcid & Hco & Hcod
        & Had & Hadv & Hch & Hchv & Hr).
  unfold edit_reservation_view, get_or_404. unfold_view.
  rewrite lookup_insert_eq. simpl.
  rewrite Hg, Hp, Hci. simpl. rewrite Hcid, Hco. simpl. rewrite Hcod, Had. simpl.
  rewrite Hadv, Hch. simpl. rewrite Hchv. simpl.
  rewrite !lookup_alter_eq, lookup_insert_eq. simpl.
  unfold ordered in Ho. apply negb_true_iff in Ho. rewrite Ho.
  match goal with
  | |- context [db_commit ?e ?W] =>
      destruct (commit_update e W i (edited_row r row)) as [objs ->]
  end; simpl.
  - rewrite !lookup_alter_eq, lookup_insert_eq. simpl. f_equal.
    destruct r; simpl in *. by inversion Hr.
  - intros j Hj. rewrite !lookup_alter_ne, lookup_insert_ne, Hl by done.
    apply lookup_empty.
  - done.
  - done.
  - by destruct r.
  - done.
Qed.

Lemma find_has_id i (t : list Reservation) row :
  find (has_id i) t = Some row → row ∈ t ∧ id row = Some i.
Proof.
  intros H. apply find_some in H as [Hin Hid]. split.
  - by apply list_elem_of_In.
  - unfold has_id in Hid. by apply bool_decide_eq_true in Hid.
Qed.

(** Asking for the edit form of a stored id with a method other than
    POST: the whole request. *)
Lemma edit_get_run h i m f w row :
  is_admin (session w) = true →
  is_readonly (session w) = false →
  idle w →
  find (has_id i) (table w) = Some row →
  m ≠ POST →
  serve h (ReqEdit i m f) w =
    (Render "edit_reservation.html" (ReservationArg row),
     settled (session w) (flashes w) (table w)).
Proof.
  intros Ha Hro (Hl & Hadd & Hdel) Hrow Hm. rewrite serve_admin by done.
  unfold edit_reservation_view, get_or_404. unfold_view.
  rewrite Hl, lookup_empty, Hrow. simpl.
  unfold is_post. rewrite bool_decide_eq_false_2 by done.
  simpl. rewrite lookup_insert_eq. simpl. unfold settled, teardown. simpl. done.
Qed.

(** ** Deleting a reservation *)

Lemma not_deleted_one i row (t : list Reservation) :
  id row = Some i →
  filter (λ r, is_deleted [i] r = false) ((λ x, if has_id i x then row else x) <$> t)
    = filter (λ r, has_id i r = false) t.
Proof.
  intros Hrow. induction t as [|x t IH]; [done|]. rewrite fmap_cons.
  destruct (has_id i x) eqn:Hx.
  - rewrite filter_cons_False, filter_cons_False; [done|by rewrite Hx|].
    unfold is_deleted. rewrite Hrow, bool_decide_eq_true_2; [done|].
    apply list_elem_of_singleton. done.
  - rewrite filter_cons_True, filter_cons_True, IH; [done|done|].
    unfold is_deleted, has_id in *. destruct (id x) as [j|]; [|done].
    apply bool_decide_eq_false in Hx. apply bool_decide_eq_false_2.
    rewrite list_elem_of_singleton. congruence.
Qed.

(** The commit of one pending delete of a loaded row. *)
Lemma commit_delete e w i row :
  loaded w !! i = Some row →
  (∀ j, j ≠ i → loaded w !! j = None) →
  row ∈ table w → id row = Some i →
  added w = [] → deleted w = [i] →
  ∃ objs, db_commit e w =
    (inr (), World (session w) (flashes w)
               (filter (λ r, has_id i r = false) (table w)) objs [] []).
Proof.
  intros Hi Hother Hin Hid Ha Hd. rewrite commit_no_inserts by done. cbv zeta.
  rewrite Hd.
  rewrite (list_fmap_ext (flushed_row (loaded w)) (λ x, if has_id i x then row else x))
    by (intros k x _; by apply flushed_row_one).
  rewrite not_deleted_one by done.
  rewrite written_rows_in; [by eexists|].
  intros x' Hx'. apply list_elem_of_fmap in Hx' as (x & -> & Hx).
  destruct (has_id i x); auto.
Qed.

(** A delete request of an admin session that is not read-only, on a
    world with nothing pending: the whole request. *)
Lemma delete_run h i w :
  is_admin (session w) = true →
  is_readonly (session w) = false →
  idle w →
  serve h (ReqDelete i) w =
    match find (has_id i) (table w) with
    | Some _ =>
        (Redirect EpIndex,
         settled (session w)
           (flashes w ++ [("Reservation deleted successfully!", "success")])
           (filter (λ r, has_id i r = false) (table w)))
    | None =>
        (Abort (if int64 (Some i) then 404 else 500),
         settled (session w) (flashes w) (table w))
    end.
Proof.
  intros Ha Hro (Hl & Hadd & Hdel). rewrite serve_admin by done.
  unfold delete_reservation_view, get_or_404. unfold_view.
  rewrite Hl, lookup_empty.
  destruct (find (has_id i) (table w)) as [row|] eqn:Hrow;
    [simpl|unfold int64; by destruct ((- 2 ^ 63 <=? i) && (i <? 2 ^ 63))].
  apply find_has_id in Hrow as [Hin Hid].
  match goal with
  | |- context [db_commit ?e ?W] =>
      destruct (commit_delete e W i row) as [objs ->]
  end; simpl; try done.
  - by rewrite Hl, lookup_insert_eq.
  - intros j Hj. by rewrite Hl, lookup_insert_ne, lookup_empty.
  - by rewrite Hdel.
Qed.

(** ** What can happen to the table *)

(** The commit of one changed object either fails and changes nothing or
    writes the object over the rows of its key. *)
Lemma commit_update_cases e w i o :
  loaded w !! i = Some o →
  (∀ j, j ≠ i → loaded w !! j = None) →
  added w = [] → deleted w = [] →
  db_commit e w = (inl OverflowError, w) ∨
  ∃ objs, db_commit e w =
    (inr (), World (session w) (flashes w)
               ((λ x, if has_id i x then o else x) <$> table w) objs [] []).
Proof.
  intros Hi Hother Ha Hd. rewrite commit_no_inserts by done. cbv zeta.
  rewrite Hd, not_deleted_nil.
  rewrite (list_fmap_ext (flushed_row (loaded w)) (λ x, if has_id i x then o else x))
    by (intros k x _; by apply flushed_row_one).
  case_match; [right; by eexists|by left].
Qed.

Lemma edit_post_table h i f w row :
  idle w →
  find (has_id i) (table w) = Some row →
  let out := edit_reservation_view i (env_of h (ReqEdit i POST f)) w in
  table out.2 = table w ∨
  ∃ r, form_fields h f = Some r ∧ ordered r = true ∧
       table out.2 = (λ x, if has_id i x then edited_row r row else x) <$> table w.
Proof.
  intros (Hl & Hadd & Hdel) Hrow out. subst out.
  destruct (form_fields h f) as [r|] eqn:Hf; cycle 1.
  { left. apply edit_view_rejects; [by eexists|].
    by rewrite (form_fields_None h f Hf), orb_true_r. }
  destruct (ordered r) eqn:Ho; cycle 1.
  { left. apply edit_view_rejects; [by eexists|].
    by rewrite (form_fields_unordered h f r Hf Ho). }
  rewrite (edit_view_found _ _ _ row) by (by rewrite ?Hl, ?lookup_empty).
  destruct (form_fields_Some h f r Hf)
    as (cit & cot & adt & cht & ad & ch & Hg & Hp & Hci & Hcid & Hco & Hcod
        & Had & Hadv & Hch & Hchv & Hr).
  unfold edit_reservation_view, get_or_404. unfold_view.
  rewrite lookup_insert_eq. simpl.
  rewrite Hg, Hp, Hci. simpl. rewrite Hcid, Hco. simpl. rewrite Hcod, Had. simpl.
  rewrite Hadv, Hch. simpl. rewrite Hchv. simpl.
  rewrite !lookup_alter_eq, lookup_insert_eq. simpl.
  unfold ordered in Ho. apply negb_true_iff in Ho. rewrite Ho.
  match goal with
  | |- context [db_commit ?e ?W] =>
      destruct (commit_update_cases e W i (edited_row r row)) as [-> | [objs ->]]
  end; simpl; try done.
  - rewrite !lookup_alter_eq, lookup_insert_eq. simpl. f_equal.
    destruct r; simpl in *. by inversion Hr.
  - intros j Hj. rewrite !lookup_alter_ne, lookup_insert_ne, Hl by done.
    apply lookup_empty.
  - by left.
  - right. exists r. unfold ordered. by rewrite Ho.
Qed.

Lemma serve_table_view h rq w :
  table (serve h rq w).2 = table (view_of rq (env_of h rq) w).2.
Proof. unfold serve. by destruct (view_of rq (env_of h rq) w) as [[x|r] w']. Qed.

(** The routes that are not mutating leave the table alone. *)
Lemma serve_table_other h rq w :
  mutating rq = false → table (serve h rq w).2 = table w.
Proof.
  intros Hm. rewrite serve_table_view.
  destruct rq; try discriminate; unfold view_of;
    unfold admin_login, admin_logout, readonly_access, exit_readonly, index,
      login_select, api_reservations, calendar_view, query_all,
      query_order_by_check_in, session_get, session_set, session_pop;
    unfold_view; repeat case_match; done.
Qed.

Lemma served_table (out : (exn + response) * world) :
  table (match out with
         | (inr r, w') => (r, teardown w')
         | (inl x, w') => (Abort (status_of_exn x), teardown w')
         end).2 = table out.2.
Proof. by destruct out as [[x|r] w']. Qed.

(** Every way a request can change the table of a world with nothing
    pending. *)
Lemma serve_table_cases h rq w :
  idle w →
  table (serve h rq w).2 = table w ∨
  (is_admin (session w) = true ∧ is_readonly (session w) = false ∧
   ((∃ f r k, rq = ReqAdd POST f ∧ accepted h f = Some r ∧
        new_rowid (host_rowid h) (table w) = Some k ∧
        table (serve h rq w).2
          = place (inserted_row (host_utcnow h) k r) (table w)) ∨
    (∃ i f row r, rq = ReqEdit i POST f ∧
        find (has_id i) (table w) = Some row ∧
        form_fields h f = Some r ∧ ordered r = true ∧
        table (serve h rq w).2
          = (λ x, if has_id i x then edited_row r row else x) <$> table w) ∨
    (∃ i row, rq = ReqDelete i ∧
        find (has_id i) (table w) = Some row ∧
        table (serve h rq w).2 = filter (λ r, has_id i r = false) (table w)))).
Proof.
  intros Hidle.
  destruct (mutating rq) eqn:Hm; [|left; by apply serve_table_other].
  destruct (is_admin (session w)) eqn:Ha; cycle 1.
  { left. rewrite serve_mutating_gated by auto. by rewrite Ha. }
  destruct (is_readonly (session w)) eqn:Hro.
  { left. rewrite serve_mutating_gated by auto. by rewrite Ha. }
  destruct rq as [| | | | | |m f|i m f|i| |]; try discriminate.
  - destruct (decide (m = POST)) as [->|Hne].
    + pose proof (add_post_run h f w Ha Hro Hidle) as Hrun.
      destruct (accepted h f) as [r|] eqn:Hacc;
        [destruct (new_rowid (host_rowid h) (table w)) as [k|] eqn:Hk|].
      * right. do 2 (split; [done|]). left. exists f, r, k. by rewrite Hrun.
      * left. destruct Hrun as [msg ->]. done.
      * left. destruct Hrun as [msg ->]. done.
    + left. rewrite serve_admin, served_table by done.
      unfold add_reservation_view. unfold_view. unfold is_post.
      by rewrite bool_decide_eq_false_2.
  - destruct (find (has_id i) (table w)) as [row|] eqn:Hrow; cycle 1.
    { left. rewrite serve_admin, served_table by done.
      destruct Hidle as (Hl & _ & _).
      rewrite edit_view_not_found; [done| |done]. by rewrite Hl, lookup_empty. }
    destruct (decide (m = POST)) as [->|Hne].
    + rewrite serve_admin, served_table by done.
      destruct (edit_post_table h i f w row Hidle Hrow) as [Ht|(r & Hf & Ho & Ht)].
      * by left.
      * right. do 2 (split; [done|]). right. left. by exists i, f, row, r.
    + left. by rewrite (edit_get_run h i m f w row).
  - pose proof (delete_run h i w Ha Hro Hidle) as Hrun.
    destruct (find (has_id i) (table w)) as [row|] eqn:Hrow.
    + right. do 2 (split; [done|]). right. right. exists i, row. by rewrite Hrun.
    + left. by rewrite Hrun.
Qed.

(** ** What the table always holds *)

Lemma date_new_valid y m d r : date_new y m d = Some r → valid_date r = true.
Proof. unfold date_new. case_match; intros; by simplify_eq. Qed.

(** Whatever the parser answers, a date read from text is a date of the
    calendar. *)
Lemma read_date_valid p s d : read_date p s = Some d → valid_date d = true.
Proof.
  unfold read_date. destruct (p s) as [d0|]; simpl; [|done]. apply date_new_valid.
Qed.

Lemma form_fields_valid h f r :
  form_fields h f = Some r →
  valid_date (check_in r) = true ∧ valid_date (check_out r) = true ∧
  is_Some (adults r) ∧ is_Some (children r) ∧
  is_Some (special_requests r) ∧ is_Some (notes r).
Proof.
  intros Hf. destruct (form_fields_Some h f r Hf)
    as (cit & cot & adt & cht & ad & ch & _ & _ & _ & Hci & _ & Hco & _ & _ & _ & _ & Hr).
  split; [by eapply read_date_valid|]. split; [by eapply read_date_valid|].
  rewrite Hr. simpl. eauto.
Qed.

Lemma inserted_row_ok now k h f r :
  form_fields h f = Some r → ordered r = true → row_ok (inserted_row now k r).
Proof.
  intros Hf Ho. destruct (form_fields_valid h f r Hf) as (? & ? & ? & ? & ? & ?).
  unfold row_ok, inserted_row, ordered. simpl. eauto 10.
Qed.

Lemma edited_row_ok h f r row :
  form_fields h f = Some r → ordered r = true → row_ok row →
  row_ok (edited_row r row).
Proof.
  intros Hf Ho (? & _ & _ & _ & _ & ? & _).
  destruct (form_fields_valid h f r Hf) as (? & ? & ? & ? & ? & ?).
  unfold row_ok, edited_row, ordered. simpl. eauto 10.
Qed.

Lemma ids_filter_NoDup (P : Reservation → Prop) `{∀ x, Decision (P x)}
    (t : list Reservation) :
  NoDup (id <$> t) → NoDup (id <$> filter P t).
Proof.
  induction t as [|x t IH]; [done|]. rewrite fmap_cons, NoDup_cons.
  intros [Hx Ht]. destruct (decide (P x)).
  - rewrite filter_cons_True, fmap_cons, NoDup_cons by done.
    split; [|by apply IH]. intros Hin. apply Hx.
    apply list_elem_of_fmap in Hin as (y & Hy & Hin).
    apply list_elem_of_filter in Hin as [_ Hin].
    apply list_elem_of_fmap. by exists y.
  - rewrite filter_cons_False by done. by apply IH.
Qed.

Lemma ids_edited i r row (t : list Reservation) :
  id row = Some i →
  id <$> ((λ x, if has_id i x then edited_row r row else x) <$> t) = id <$> t.
Proof.
  intros Hrow. rewrite <- list_fmap_compose. apply list_fmap_ext.
  intros k x _. simpl. unfold has_id. case_bool_decide; simpl; congruence.
Qed.

(** Every request keeps the table well formed. *)
Lemma serve_table_ok h rq w :
  idle w → table_ok (table w) → table_ok (table (serve h rq w).2).
Proof.
  intros Hidle [Hrows Hids].
  destruct (serve_table_cases h rq w Hidle)
    as [->|(_ & _ & [(f & r & k & _ & Hacc & Hk & ->)
                    |[(i & f & row & r & _ & Hrow & Hf & Ho & ->)
                     |(i & row & _ & _ & ->)]])]; [done|..].
  - apply accepted_Some in Hacc as (Hf & Ho & _). split.
    + rewrite place_perm. apply Forall_cons. split; [|done].
      by eapply inserted_row_ok.
    + rewrite place_perm, fmap_cons. apply NoDup_cons. split; [|done].
      by apply (new_rowid_fresh (host_rowid h)).
  - apply find_has_id in Hrow as [Hin Hid]. split.
    + apply Forall_fmap, Forall_forall. intros x Hx. simpl.
      rewrite Forall_forall in Hrows. destruct (has_id i x); [|by apply Hrows].
      eapply edited_row_ok; eauto.
    + by rewrite ids_edited.
  - split.
    + rewrite Forall_forall in *. intros x Hx.
      apply list_elem_of_filter in Hx as [_ Hx]. by apply Hrows.
    + by apply ids_filter_NoDup.
Qed.

(** ** Creating, updating and deleting: what the user gets *)

Lemma find_edited i r row (t : list Reservation) :
  id row = Some i →
  is_Some (find (has_id i) t) →
  find (has_id i) ((λ x, if has_id i x then edited_row r row else x) <$> t)
    = Some (edited_row r row).
Proof.
  intros Hrow. induction t as [|x t IH]; intros [y Hy]; [done|].
  rewrite fmap_cons. simpl in *. destruct (has_id i x) eqn:Hx.
  - assert (has_id i (edited_row r row) = true) as ->; [|done].
    unfold has_id. by apply bool_decide_eq_true_2.
  - rewrite Hx. apply IH. by exists y.
Qed.

Lemma find_filtered_out i (t : list Reservation) :
  find (has_id i) (filter (λ r, has_id i r = false) t) = None.
Proof.
  induction t as [|x t IH]; [done|]. destruct (has_id i x) eqn:Hx.
  - rewrite filter_cons_False; [done|]. by rewrite Hx.
  - rewrite filter_cons_True by done. simpl. by rewrite Hx.
Qed.

Lemma filter_no_match i (t : list Reservation) :
  Some i ∉ id <$> t → filter (λ r, has_id i r = false) t = t.
Proof.
  induction t as [|x t IH]; [done|]. rewrite fmap_cons, not_elem_of_cons.
  intros [Hx Ht]. rewrite filter_cons_True, IH; [done|done|].
  unfold has_id. apply bool_decide_eq_false_2. congruence.
Qed.

Lemma filter_one_length i (t : list Reservation) :
  NoDup (id <$> t) → Some i ∈ id <$> t →
  S (length (filter (λ r, has_id i r = false) t)) = length t.
Proof.
  induction t as [|x t IH]; [by intros _ ?%elem_of_nil|].
  rewrite fmap_cons, NoDup_cons. intros [Hx Ht] Hin.
  destruct (has_id i x) eqn:Hid.
  - rewrite filter_cons_False by (by rewrite Hid).
    unfold has_id in Hid. apply bool_decide_eq_true in Hid.
    rewrite filter_no_match; [done|congruence].
  - rewrite filter_cons_True by done. simpl. f_equal. apply IH; [done|].
    apply elem_of_cons in Hin as [Hin|Hin]; [|done].
    unfold has_id in Hid. apply bool_decide_eq_false in Hid. congruence.
Qed.

(** X1: an accepted create attempt (admin session, not read-only, nothing
    pending; the form parses under the parsers of the host, its dates are in
    order, its counts fit) for which the engine has a row id [k] adds
    exactly one row.  The row has the values of the form, the time of the
    request and the id [k], which no stored row has; the rows before are
    all kept, and the new row stands where its id puts it.  While the
    largest stored id is below the largest row id, [k] is the next id and
    the row is the last of the table.  The answer is a redirect to the
    listing with one notice of success. *)
Theorem create_stores_one_row h f w r k :
  is_admin (session w) = true →
  is_readonly (session w) = false →
  idle w →
  accepted h f = Some r →
  new_rowid (host_rowid h) (table w) = Some k →
  let row :=
    mkReservation (Some k) (guest_name r) (platform r)
      (check_in r) (check_out r) (adults r) (children r)
      (special_requests r) (notes r) (Some (host_utcnow h)) in
  (serve h (ReqAdd POST f) w).1 = Redirect EpIndex ∧
  table (serve h (ReqAdd POST f) w).2 = place row (table w) ∧
  table (serve h (ReqAdd POST f) w).2 ≡ₚ row :: table w ∧
  (Some k ∉ id <$> table w) ∧
  (below_max (table w) →
     k = next_id (table w) ∧
     table (serve h (ReqAdd POST f) w).2 = table w ++ [row]) ∧
  f !! "guest_name" = Some (guest_name r) ∧
  f !! "platform" = Some (platform r) ∧
  (f !! "check_in" ≫= read_date (host_strptime h)) = Some (check_in r) ∧
  (f !! "check_out" ≫= read_date (host_strptime h)) = Some (check_out r) ∧
  (f !! "adults" ≫= host_int h) = adults r ∧
  (f !! "children" ≫= host_int h) = children r ∧
  flashes (serve h (ReqAdd POST f) w).2 =
    flashes w ++ [("Reservation added successfully!", "success")] ∧
  session (serve h (ReqAdd POST f) w).2 = session w.
Proof.
  intros Ha Hro Hidle Hacc Hk row.
  pose proof (add_post_run h f w Ha Hro Hidle) as Hrun.
  rewrite Hacc, Hk in Hrun. rewrite Hrun. simpl.
  apply accepted_Some in Hacc as (Hf & _ & _).
  destruct (form_fields_Some h f r Hf)
    as (cit & cot & adt & cht & ad & ch & Hg & Hp & Hci & Hcid & Hco & Hcod
        & Had & Hadv & Hch & Hchv & Hr).
  rewrite Hci, Hco, Had, Hch. simpl.
  split; [done|]. split; [done|]. split; [apply place_perm|].
  split; [by apply (new_rowid_fresh (host_rowid h))|].
  split; [|repeat split; try done; rewrite Hr; simpl; congruence].
  intros Hb. rewrite new_rowid_below in Hk by done. simplify_eq.
  split; [done|]. apply place_next.
Qed.

Lemma create_stores_one_row_witness :
  table (serve some_host (ReqAdd POST smith_form) (admin_world [smith_row])).2 =
    [smith_row;
     mkReservation (Some 2) "A. Smith" "Airbnb" (Date 2024 3 1) (Date 2024 3 5)
       (Some 2) (Some 0) (Some EmptyString) (Some EmptyString) (Some 0)].
Proof.
  exact (proj1 (proj2 (create_stores_one_row some_host smith_form
           (admin_world [smith_row])
           (mkReservation None "A. Smith" "Airbnb" (Date 2024 3 1) (Date 2024 3 5)
              (Some 2) (Some 0) (Some EmptyString) (Some EmptyString) None)
           2 eq_refl eq_refl (conj eq_refl (conj eq_refl eq_refl)) eq_refl eq_refl))).
Defined.

(** X2: a create attempt of an admin session that is not read-only, with
    nothing pending, changes the table exactly when the form is accepted
    and the engine has a row id for the new row, which it always has while
    the largest stored id is below the largest row id.  Every other attempt
    (a field missing, a date or a count that the parsers of the host refuse,
    dates out of order, a count outside 64 bits, no row id left) is answered
    by a redirect to the add form with one notice of category error, and
    session and table stay as they were. *)
Theorem create_all_or_nothing h f w :
  is_admin (session w) = true →
  is_readonly (session w) = false →
  idle w →
  (is_Some (accepted h f) ∧ is_Some (new_rowid (host_rowid h) (table w))
     ↔ table (serve h (ReqAdd POST f) w).2 ≠ table w) ∧
  (below_max (table w) → is_Some (new_rowid (host_rowid h) (table w))) ∧
  (accepted h f = None ∨ new_rowid (host_rowid h) (table w) = None →
     (serve h (ReqAdd POST f) w).1 = Redirect EpAddReservation ∧
     session (serve h (ReqAdd POST f) w).2 = session w ∧
     table (serve h (ReqAdd POST f) w).2 = table w ∧
     ∃ msg, flashes (serve h (ReqAdd POST f) w).2 = flashes w ++ [(msg, "error")]).
Proof.
  intros Ha Hro Hidle. pose proof (add_post_run h f w Ha Hro Hidle) as Hrun.
  split; [|split].
  - destruct (accepted h f) as [r|];
      [destruct (new_rowid (host_rowid h) (table w)) as [k|]|].
    + rewrite Hrun. simpl. split; [|by split; eexists].
      intros _ Heq. apply (f_equal length) in Heq.
      rewrite place_perm in Heq. simpl in Heq. lia.
    + destruct Hrun as [msg ->]. simpl. split; [by intros [_ [? ?]]|done].
    + destruct Hrun as [msg ->]. simpl. split; [by intros [[? ?] _]|done].
  - intros Hb. rewrite new_rowid_below by done. by eexists.
  - intros Hno.
    assert (∃ msg, serve h (ReqAdd POST f) w =
              (Redirect EpAddReservation,
               settled (session w) (flashes w ++ [(msg, "error")]) (table w)))
      as [msg ->].
    { destruct (accepted h f) as [r|];
        [destruct (new_rowid (host_rowid h) (table w)) as [k|]|]; try done.
      by destruct Hno. }
    simpl. repeat split; try done. by exists msg.
Qed.

Lemma create_all_or_nothing_witness :
  let f := <["adults" := "9223372036854775808"]> smith_form in
  accepted some_host f = None ∧
  (serve some_host (ReqAdd POST f) (admin_world [smith_row])).1
    = Redirect EpAddReservation.
Proof.
  intros f. split; [reflexivity|].
  exact (proj1 (proj2 (proj2 (create_all_or_nothing some_host f
           (admin_world [smith_row])
           eq_refl eq_refl (conj eq_refl (conj eq_refl eq_refl))))
           (or_introl eq_refl))).
Defined.

(** X3: an accepted update of a stored id (admin session, not read-only,
    nothing pending) rewrites the row of that id with the eight values of
    the form and keeps its id and its creation time; the table keeps its
    length and its ids in their order, every row of another id is as it
    was, and the answer is a redirect to the listing with one notice of
    success. *)
Theorem update_rewrites_row h i f w row r :
  is_admin (session w) = true →
  is_readonly (session w) = false →
  idle w →
  find (has_id i) (table w) = Some row →
  accepted h f = Some r →
  (serve h (ReqEdit i POST f) w).1 = Redirect EpIndex ∧
  find (has_id i) (table (serve h (ReqEdit i POST f) w).2) =
    Some (mkReservation (Some i) (guest_name r) (platform r) (check_in r)
            (check_out r) (adults r) (children r) (special_requests r) (notes r)
            (created_at row)) ∧
  id <$> table (serve h (ReqEdit i POST f) w).2 = id <$> table w ∧
  (∀ k x, table w !! k = Some x → has_id i x = false →
          table (serve h (ReqEdit i POST f) w).2 !! k = Some x) ∧
  flashes (serve h (ReqEdit i POST f) w).2 =
    flashes w ++ [("Reservation updated successfully!", "success")].
Proof.
  intros Ha Hro Hidle Hrow Hacc.
  rewrite (edit_post_run h i f w row r Ha Hro Hidle Hrow Hacc). simpl.
  pose proof (find_has_id i _ _ Hrow) as [Hin Hid].
  split; [done|]. split; [|split; [|split]]; [| |intros k x Hk Hx|done].
  - rewrite find_edited by eauto. unfold edited_row. by rewrite Hid.
  - by apply ids_edited.
  - by rewrite list_lookup_fmap, Hk; simpl; rewrite Hx.
Qed.

Lemma update_rewrites_row_witness :
  find (has_id 1)
    (table (serve some_host
              (ReqEdit 1 POST (<["guest_name" := "B. Jones"]> smith_form))
              (admin_world [smith_row])).2) =
    Some (mkReservation (Some 1) "B. Jones" "Airbnb" (Date 2024 3 1) (Date 2024 3 5)
            (Some 2) (Some 0) (Some EmptyString) (Some EmptyString) (Some 0)).
Proof.
  exact (proj1 (proj2 (update_rewrites_row some_host 1
           (<["guest_name" := "B. Jones"]> smith_form) (admin_world [smith_row])
           smith_row
           (mkReservation None "B. Jones" "Airbnb" (Date 2024 3 1) (Date 2024 3 5)
              (Some 2) (Some 0) (Some EmptyString) (Some EmptyString) None)
           eq_refl eq_refl (conj eq_refl (conj eq_refl eq_refl)) eq_refl eq_refl))).
Defined.

(** X4: asking for the edit form of a stored id with GET or HEAD (admin
    session, not read-only, nothing pending) renders the edit template with
    the row exactly as it is stored, whatever the request carries as form,
    and changes neither table, session nor notices. *)
Theorem edit_form_shows_stored_row h i m f w row :
  is_admin (session w) = true →
  is_readonly (session w) = false →
  idle w →
  find (has_id i) (table w) = Some row →
  m ≠ POST →
  (serve h (ReqEdit i m f) w).1 = Render "edit_reservation.html" (ReservationArg row) ∧
  id row = Some i ∧
  table (serve h (ReqEdit i m f) w).2 = table w ∧
  session (serve h (ReqEdit i m f) w).2 = session w ∧
  flashes (serve h (ReqEdit i m f) w).2 = flashes w.
Proof.
  intros Ha Hro Hidle Hrow Hm.
  rewrite (edit_get_run h i m f w row Ha Hro Hidle Hrow Hm). simpl.
  by destruct (find_has_id i _ _ Hrow).
Qed.

Lemma edit_form_shows_stored_row_witness :
  (serve some_host (ReqEdit 1 GET ∅) (admin_world [smith_row])).1
    = Render "edit_reservation.html" (ReservationArg smith_row).
Proof.
  assert (GET ≠ POST) as Hm by discriminate.
  exact (proj1 (edit_form_shows_stored_row some_host 1 GET ∅ (admin_world [smith_row])
           smith_row eq_refl eq_refl (conj eq_refl (conj eq_refl eq_refl))
           eq_refl Hm)).
Defined.

(** X5: for an id that no stored row has, the edit route (with any method
    and any form) and the delete route of an admin session that is not
    read-only give no notice and change nothing; they answer 404 when the
    id fits the 64 bits of the engine and 500 when it does not, since then
    the lookup itself fails outside the handler of the view. *)
Theorem unknown_id_refused h i m f w :
  is_admin (session w) = true →
  is_readonly (session w) = false →
  idle w →
  Some i ∉ id <$> table w →
  let status := if int64 (Some i) then 404 else 500 in
  serve h (ReqEdit i m f) w = (Abort status, w) ∧
  serve h (ReqDelete i) w = (Abort status, w) ∧
  get_or_404 i (env_of h (ReqDelete i)) w =
    (inl (if int64 (Some i) then NotFound else OverflowError), w).
Proof.
  intros Ha Hro Hidle Hnone status.
  assert (find (has_id i) (table w) = None) as Hfind.
  { destruct (find (has_id i) (table w)) as [row|] eqn:Hrow; [|done].
    destruct (find_has_id i _ _ Hrow) as [Hin Hid]. destruct Hnone.
    apply list_elem_of_fmap. by exists row. }
  assert (teardown w = w) as Hw.
  { destruct Hidle as (Hl & Hadd & Hdel). destruct w. simpl in *. by subst. }
  assert (settled (session w) (flashes w) (table w) = w) as Hw'.
  { by rewrite <- Hw at 4. }
  split; [|split].
  - rewrite serve_admin by done. destruct Hidle as (Hl & _ & _).
    rewrite edit_view_not_found; [|by rewrite Hl, lookup_empty|done].
    rewrite Hw. subst status. by destruct (int64 (Some i)).
  - rewrite (delete_run h i w Ha Hro Hidle), Hfind, Hw'. done.
  - unfold get_or_404. destruct Hidle as (Hl & _ & _).
    rewrite Hl, lookup_empty, Hfind. by destruct (int64 (Some i)).
Qed.

Lemma unknown_id_refused_witness :
  (serve some_host (ReqEdit 7 POST smith_form) (admin_world [smith_row])
     = (Abort 404, admin_world [smith_row]) ∧
   serve some_host (ReqDelete 7) (admin_world [smith_row])
     = (Abort 404, admin_world [smith_row])) ∧
  (serve some_host (ReqEdit (2 ^ 63) POST smith_form) (admin_world [smith_row])
     = (Abort 500, admin_world [smith_row]) ∧
   serve some_host (ReqDelete (2 ^ 63)) (admin_world [smith_row])
     = (Abort 500, admin_world [smith_row])).
Proof.
  assert (∀ i, bool_decide (Some i ∉ id <$> [smith_row]) = true →
               Some i ∉ id <$> table (admin_world [smith_row])) as Hno.
  { intros i Hi. by apply bool_decide_eq_true in Hi. }
  pose proof (unknown_id_refused some_host 7 POST smith_form (admin_world [smith_row])
                eq_refl eq_refl (conj eq_refl (conj eq_refl eq_refl))
                (Hno 7 eq_refl)) as H7.
  pose proof (unknown_id_refused some_host (2 ^ 63) POST smith_form
                (admin_world [smith_row])
                eq_refl eq_refl (conj eq_refl (conj eq_refl eq_refl))
                (Hno (2 ^ 63) eq_refl)) as Hbig.
  exact (conj (conj (proj1 H7) (proj1 (proj2 H7)))
              (conj (proj1 Hbig) (proj1 (proj2 Hbig)))).
Defined.

(** X6: deleting a stored id (admin session, not read-only, nothing
    pending) removes the row of that id and no other: no row of the id is
    left, every row of another id is still there and in the same order,
    with unique ids the table is shorter by exactly one, and the answer is
    a redirect to the listing with one notice of success. *)
Theorem delete_removes_row h i w row :
  is_admin (session w) = true →
  is_readonly (session w) = false →
  idle w →
  find (has_id i) (table w) = Some row →
  (serve h (ReqDelete i) w).1 = Redirect EpIndex ∧
  table (serve h (ReqDelete i) w).2 = filter (λ r, has_id i r = false) (table w) ∧
  find (has_id i) (table (serve h (ReqDelete i) w).2) = None ∧
  (∀ x, x ∈ table w → has_id i x = false → x ∈ table (serve h (ReqDelete i) w).2) ∧
  (NoDup (id <$> table w) →
     S (length (table (serve h (ReqDelete i) w).2)) = length (table w)) ∧
  flashes (serve h (ReqDelete i) w).2 =
    flashes w ++ [("Reservation deleted successfully!", "success")].
Proof.
  intros Ha Hro Hidle Hrow. rewrite (delete_run h i w Ha Hro Hidle), Hrow. simpl.
  destruct (find_has_id i _ _ Hrow) as [Hin Hid].
  split; [done|]. split; [done|]. split; [apply find_filtered_out|].
  split; [|split; [|done]].
  - intros x Hx Hne. by apply list_elem_of_filter.
  - intros Hnd. apply filter_one_length; [done|].
    apply list_elem_of_fmap. by exists row.
Qed.

Lemma delete_removes_row_witness :
  table (serve some_host (ReqDelete 1) (admin_world [smith_row])).2 = [].
Proof.
  exact (proj1 (proj2 (delete_removes_row some_host 1 (admin_world [smith_row])
           smith_row eq_refl eq_refl (conj eq_refl (conj eq_refl eq_refl)) eq_refl))).
Defined.

(** ** Invariants of the table *)

Lemma run_table_ok trace w :
  idle w → table_ok (table w) →
  idle (run trace w) ∧ table_ok (table (run trace w)).
Proof.
  revert w. induction trace as [|[[h s] rq] rest IH]; intros w Hidle Hok; [done|].
  simpl. apply IH; [apply serve_idle|].
  by apply (serve_table_ok h rq (with_session (λ _, s) w)).
Qed.

(** X7: starting from an empty table, after any history of requests, made
    at any times by clients holding any sessions, every stored row has a
    check-out after its check-in, two dates of the calendar, an id, and a
    value in every other column, and no two rows share an id; so the dates
    of every row satisfy what the JSON listing needs. *)
Theorem table_always_well_formed trace :
  table_ok (table (run trace (fresh_world []))) ∧
  dates_valid (table (run trace (fresh_world []))) ∧
  Forall (λ r, date_leb (check_out r) (check_in r) = false)
    (table (run trace (fresh_world []))).
Proof.
  destruct (run_table_ok trace (fresh_world [])) as [_ [Hrows Hids]].
  { done. }
  { split; [constructor|constructor]. }
  split; [done|]. split.
  - unfold dates_valid. eapply Forall_impl; [exact Hrows|].
    intros r (_ & _ & _ & _ & _ & _ & ? & ? & _). done.
  - eapply Forall_impl; [exact Hrows|].
    intros r (_ & _ & _ & _ & _ & _ & _ & _ & Ho). unfold ordered in Ho.
    by apply negb_true_iff in Ho.
Qed.

(** X8: a request changes the table only if its session has the admin
    flag and not the read-only flag and it is a POST to the add route, a
    POST to the edit route, or a request to the delete route. *)
Theorem only_admin_writes h rq w :
  idle w →
  table (serve h rq w).2 ≠ table w →
  is_admin (session w) = true ∧
  is_readonly (session w) = false ∧
  match rq with
  | ReqAdd POST _ | ReqEdit _ POST _ | ReqDelete _ => True
  | _ => False
  end.
Proof.
  intros Hidle Hchg.
  destruct (serve_table_cases h rq w Hidle)
    as [?|(Ha & Hro & [(f & r & k & -> & _)
                      |[(i & f & row & r & -> & _)|(i & row & -> & _)]])];
    done.
Qed.

Lemma only_admin_writes_witness :
  is_admin (session (admin_world [])) = true ∧
  is_readonly (session (admin_world [])) = false ∧
  True.
Proof.
  apply (only_admin_writes some_host (ReqAdd POST smith_form) (admin_world [])
           (conj eq_refl (conj eq_refl eq_refl))).
  vm_compute. discriminate.
Defined.

(** X9: a session without the admin flag never changes the table, whatever
    it asks for and whatever is pending. *)
Theorem non_admin_never_writes h rq w :
  is_admin (session w) = false →
  table (serve h rq w).2 = table w.
Proof.
  intros Ha. destruct (mutating rq) eqn:Hm.
  - rewrite serve_mutating_gated by auto. by rewrite Ha.
  - by apply serve_table_other.
Qed.

Lemma non_admin_never_writes_witness :
  table (serve some_host (ReqAdd POST smith_form)
           (World readonly_session [] [smith_row] ∅ [] [])).2 = [smith_row].
Proof.
  exact (non_admin_never_writes some_host (ReqAdd POST smith_form)
           (World readonly_session [] [smith_row] ∅ [] []) eq_refl).
Defined.

(** ** Sessions: who is admin, and what a session holds *)

Lemma serve_keeps_session_other h rq w :
  match rq with
  | ReqAdminLogin _ _ | ReqAdminLogout | ReqReadonly | ReqExitReadonly => False
  | _ => True
  end →
  session (serve h rq w).2 = session w.
Proof.
  intros Hrq. rewrite serve_session. destruct rq; try done; unfold view_of;
    first [ apply keeps_index | apply keeps_login_select
          | apply keeps_add_reservation | apply keeps_edit_reservation
          | apply keeps_delete_reservation | apply keeps_api_reservations
          | apply keeps_calendar_view ].
Qed.

(** X10: the admin flag is gained by the right password only: when a
    session without the admin flag has it after a request, the request was
    a POST to the login route whose password field is the configured
    password. *)
Theorem admin_only_by_password h rq w :
  is_admin (session w) = false →
  is_admin (session (serve h rq w).2) = true →
  ∃ f, rq = ReqAdminLogin POST f ∧ f !! "password" = Some (host_password h).
Proof.
  intros Ha Hafter.
  destruct rq as [m f| | | | | | | | | |];
    try (rewrite serve_keeps_session_other in Hafter by done; congruence);
    rewrite serve_session in Hafter; unfold view_of in Hafter.
  - rewrite admin_login_session, Ha in Hafter. simpl in Hafter.
    destruct m; simpl in Hafter; try congruence.
    case_bool_decide; [by exists f|congruence].
  - rewrite admin_logout_session in Hafter.
    destruct (flags_after_logout (session w)). congruence.
  - rewrite readonly_access_session in Hafter.
    destruct (flags_after_readonly (session w)). congruence.
  - rewrite exit_readonly_session in Hafter.
    destruct (flags_after_exit (session w)). congruence.
Qed.

Lemma admin_only_by_password_witness :
  ∃ f, ReqAdminLogin POST {[ "password" := "pw" ]} = ReqAdminLogin POST f ∧
       f !! "password" = Some "pw".
Proof.
  exact (admin_only_by_password some_host
           (ReqAdminLogin POST {[ "password" := "pw" ]}) (fresh_world [])
           eq_refl eq_refl).
Defined.

(** X11: a login attempt of a session without the admin flag whose
    password field is missing or differs from the configured password
    renders the login form again with the notice of an invalid password,
    and a request with another method renders it with no notice; neither
    changes the session or the table. *)
Theorem wrong_password_refused h m f w :
  is_admin (session w) = false →
  f !! "password" ≠ Some (host_password h) ∨ m ≠ POST →
  (serve h (ReqAdminLogin m f) w).1 = Render "admin_login.html" NoArgs ∧
  session (serve h (ReqAdminLogin m f) w).2 = session w ∧
  table (serve h (ReqAdminLogin m f) w).2 = table w ∧
  flashes (serve h (ReqAdminLogin m f) w).2 =
    flashes w ++ (if is_post m then [("Invalid admin password", "error")] else []).
Proof.
  intros Ha Hbad. unfold serve, view_of, admin_login, session_get.
  unfold is_admin in Ha. unfold_view. rewrite Ha. simpl.
  destruct (is_post m) eqn:Hm; simpl.
  - destruct Hbad as [Hpw|Hne].
    + by rewrite bool_decide_eq_false_2.
    + unfold is_post in Hm. by apply bool_decide_eq_true in Hm.
  - by rewrite app_nil_r.
Qed.

Lemma wrong_password_refused_witness :
  (serve some_host (ReqAdminLogin POST {[ "password" := "guess" ]}) (fresh_world [])).1
    = Render "admin_login.html" NoArgs ∧
  session (serve some_host (ReqAdminLogin POST {[ "password" := "guess" ]})
             (fresh_world [])).2 = ∅.
Proof.
  assert (({[ "password" := "guess" ]} : gmap string string) !! "password"
            ≠ Some (host_password some_host)) as Hpw by (vm_compute; discriminate).
  pose proof (wrong_password_refused some_host POST {[ "password" := "guess" ]}
                (fresh_world []) eq_refl (or_introl Hpw)) as H.
  exact (conj (proj1 H) (proj1 (proj2 H))).
Defined.

Lemma flags_only_empty : flags_only ∅.
Proof. intros k v H. by rewrite lookup_empty in H. Qed.

Lemma flags_only_delete k (s : gmap string bool) :
  flags_only s → flags_only (delete k s).
Proof.
  intros Hs k' v H. apply lookup_delete_Some in H as [_ H]. by apply Hs.
Qed.

Lemma flags_only_set k (s : gmap string bool) :
  k = "admin_logged_in" ∨ k = "readonly_mode" →
  flags_only s → flags_only (<[k := true]> s).
Proof.
  intros Hk Hs k' v H. apply lookup_insert_Some in H as [[<- <-]|[_ H]]; [done|].
  by apply Hs.
Qed.

Lemma serve_flags_only h rq w :
  flags_only (session w) → flags_only (session (serve h rq w).2).
Proof.
  intros Hs.
  destruct rq as [m f| | | | | | | | | |];
    try (by rewrite serve_keeps_session_other);
    rewrite serve_session; unfold view_of.
  - rewrite admin_login_session. repeat case_match; try done.
    apply flags_only_delete, flags_only_set; auto.
  - rewrite admin_logout_session. by apply flags_only_delete.
  - rewrite readonly_access_session. apply flags_only_delete, flags_only_set; auto.
  - rewrite exit_readonly_session. by apply flags_only_delete.
Qed.

Lemma browse_reachable trace w :
  reachable (session w) → reachable (session (browse trace w)).
Proof.
  revert w. induction trace as [|[h rq] rest IH]; intros w Hr; [done|].
  simpl. apply IH. by apply reach_serve.
Qed.

(** ** Listing, chooser and the way between modes *)

Lemma index_run h w :
  serve h ReqIndex w =
    (if negb (is_admin (session w)) && negb (is_readonly (session w))
     then Redirect EpLoginSelect
     else Render "index.html"
            (ListingArgs (order_by_check_in (table w))
               (is_readonly (session w)) (is_admin (session w)) (host_today h)),
     teardown w).
Proof.
  unfold serve, view_of, index, session_get, query_order_by_check_in,
    is_admin, is_readonly. unfold_view.
  by destruct (negb _ && negb _).
Qed.

Lemma calendar_run h w :
  serve h ReqCalendar w =
    (if negb (is_admin (session w)) && negb (is_readonly (session w))
     then Redirect EpLoginSelect
     else Render "calendar.html"
            (ListingArgs (order_by_check_in (table w))
               (is_readonly (session w)) (is_admin (session w)) (host_today h)),
     teardown w).
Proof.
  unfold serve, view_of, calendar_view, session_get, query_order_by_check_in,
    is_admin, is_readonly. unfold_view.
  by destruct (negb _ && negb _).
Qed.

Lemma login_select_run h w :
  serve h ReqLoginSelect w =
    (if is_admin (session w) || is_readonly (session w)
     then Redirect EpIndex
     else Render "login_select.html" NoArgs,
     teardown w).
Proof.
  unfold serve, view_of, login_select, session_get, is_admin, is_readonly.
  unfold_view. by destruct (_ || _).
Qed.

(** X13: the listing and the mode chooser never send a client back and
    forth: for every session exactly one of the two renders its template,
    and the other redirects to it.  Neither changes session, notices or
    table. *)
Theorem chooser_and_listing_never_loop h w :
  ((serve h ReqIndex w).1 = Redirect EpLoginSelect ∧
   (serve h ReqLoginSelect w).1 = Render "login_select.html" NoArgs
   ∨
   (serve h ReqLoginSelect w).1 = Redirect EpIndex ∧
   ∃ args, (serve h ReqIndex w).1 = Render "index.html" args) ∧
  (serve h ReqIndex w).2 = teardown w ∧
  (serve h ReqLoginSelect w).2 = teardown w.
Proof.
  rewrite index_run, login_select_run. simpl. split; [|done].
  destruct (is_admin (session w)), (is_readonly (session w)); simpl; eauto.
Qed.

(** X14: after a logout the session has no admin flag and its read-only
    flag is as before, and the next request to the add, edit or delete
    route is sent to the admin login and leaves the table as it was before
    the logout. *)
Theorem logout_then_refused h h' rq w :
  mutating rq = true →
  (serve h ReqAdminLogout w).1 = Redirect EpAdminLogin ∧
  is_admin (session (serve h ReqAdminLogout w).2) = false ∧
  is_readonly (session (serve h ReqAdminLogout w).2) = is_readonly (session w) ∧
  (serve h' rq (serve h ReqAdminLogout w).2).1 = Redirect EpAdminLogin ∧
  table (serve h' rq (serve h ReqAdminLogout w).2).2 = table w.
Proof.
  intros Hm.
  assert (session (serve h ReqAdminLogout w).2 = delete "admin_logged_in" (session w))
    as Hs by done.
  destruct (flags_after_logout (session w)) as [Ha Hro].
  rewrite <- Hs in Ha, Hro.
  split; [done|]. split; [done|]. split; [done|].
  rewrite serve_mutating_gated by auto. by rewrite Ha.
Qed.

Lemma logout_then_refused_witness :
  (serve some_host (ReqDelete 1)
     (serve some_host ReqAdminLogout (admin_world [smith_row])).2).1
    = Redirect EpAdminLogin ∧
  table (serve some_host (ReqDelete 1)
           (serve some_host ReqAdminLogout (admin_world [smith_row])).2).2
    = [smith_row].
Proof.
  pose proof (logout_then_refused some_host some_host (ReqDelete 1)
                (admin_world [smith_row]) eq_refl) as H.
  exact (proj2 (proj2 (proj2 H))).
Defined.

(** X15: entering read-only mode, from any session, opens the listing and
    the calendar: both then render the same list, which holds the stored
    reservations, each as often as the table, in ascending order of
    check-in, with the read-only flag on and the admin flag off.  Leaving
    read-only mode afterwards makes the session anonymous, so the listing
    redirects to the mode chooser again.  The table is the same
    throughout. *)
Theorem readonly_visit h1 h2 h3 h4 w :
  let w1 := (serve h1 ReqReadonly w).2 in
  let w2 := (serve h3 ReqExitReadonly w1).2 in
  (serve h1 ReqReadonly w).1 = Redirect EpIndex ∧
  (∃ reservations,
     (serve h2 ReqIndex w1).1 =
       Render "index.html" (ListingArgs reservations true false (host_today h2)) ∧
     (serve h2 ReqCalendar w1).1 =
       Render "calendar.html" (ListingArgs reservations true false (host_today h2)) ∧
     StronglySorted by_check_in reservations ∧
     reservations ≡ₚ table w) ∧
  (serve h3 ReqExitReadonly w1).1 = Redirect EpLoginSelect ∧
  anonymous (session w2) ∧
  (serve h4 ReqIndex w2).1 = Redirect EpLoginSelect ∧
  table w1 = table w ∧
  table w2 = table w.
Proof.
  intros w1 w2.
  assert (session w1 = delete "admin_logged_in" (<["readonly_mode" := true]> (session w)))
    as Hs1 by done.
  assert (session w2 = delete "readonly_mode" (session w1)) as Hs2 by done.
  destruct (flags_after_readonly (session w)) as [Hro1 Ha1]. rewrite <- Hs1 in Hro1, Ha1.
  destruct (flags_after_exit (session w1)) as [Hro2 Ha2]. rewrite <- Hs2 in Hro2, Ha2.
  rewrite Ha1 in Ha2.
  rewrite !index_run, calendar_run, Hro1, Ha1, Hro2, Ha2. simpl.
  split; [done|]. split; [|repeat split; done].
  exists (order_by_check_in (table w)).
  split; [done|]. split; [done|].
  split; [apply order_by_check_in_sorted|apply order_by_check_in_perm].
Qed.

(** ** What the JSON listing tells *)

Lemma json_int_inj o1 o2 : json_int o1 = json_int o2 → o1 = o2.
Proof. destruct o1, o2; simpl; intros; by simplify_eq. Qed.

Lemma json_str_inj o1 o2 : json_str o1 = json_str o2 → o1 = o2.
Proof. destruct o1, o2; simpl; intros; by simplify_eq. Qed.

Lemma isoformat_inj d1 d2 :
  valid_date d1 = true → valid_date d2 = true →
  isoformat d1 = isoformat d2 → d1 = d2.
Proof.
  intros H1 H2 Heq. apply (f_equal ascii_strptime) in Heq.
  rewrite !strptime_isoformat in Heq by done. by simplify_eq.
Qed.

(** X16: the mapping [to_dict] makes of a row tells the row apart from
    every other: two rows with dates of the calendar that give the same
    mapping agree in every column but [created_at], which the mapping
    leaves out. *)
Theorem to_dict_determines_row r1 r2 :
  valid_date (check_in r1) = true → valid_date (check_out r1) = true →
  valid_date (check_in r2) = true → valid_date (check_out r2) = true →
  to_dict r1 = to_dict r2 →
  set_created_at None r1 = set_created_at None r2 ∧
  dict_get "created_at" (to_dict r1) = None.
Proof.
  intros Hi1 Ho1 Hi2 Ho2 Heq. split; [|done].
  unfold to_dict in Heq.
  remember (isoformat (check_in r1)) as a1 eqn:Ea1.
  remember (isoformat (check_out r1)) as b1 eqn:Eb1.
  remember (isoformat (check_in r2)) as a2 eqn:Ea2.
  remember (isoformat (check_out r2)) as b2 eqn:Eb2.
  injection Heq as Hid Hg Hp Hci Hco Had Hch Hsr Hnt. subst a1 b1 a2 b2.
  apply json_int_inj in Hid, Had, Hch. apply json_str_inj in Hsr, Hnt.
  apply isoformat_inj in Hci, Hco; try done.
  destruct r1, r2; simpl in *. by subst.
Qed.

Lemma to_dict_determines_row_witness :
  set_created_at None smith_row = set_created_at None (set_created_at (Some 5) smith_row).
Proof.
  exact (proj1 (to_dict_determines_row smith_row (set_created_at (Some 5) smith_row)
           eq_refl eq_refl eq_refl eq_refl eq_refl)).
Defined.

Lemma api_run h w :
  serve h ReqApiReservations w =
    (Jsonify (JList ((λ r, JDict (to_dict r)) <$> table w)), teardown w).
Proof. done. Qed.

(** X17: a reservation that has just been created shows up.  When the
    form is accepted and the engine has the row id [k] for it, the listing
    asked next by the same admin session hands its template a list in
    ascending order of check-in that holds the new row and the rows the
    table had, and the JSON listing is the mappings of the rows stored
    before with the mapping of the new row where its id puts it: at the
    end, while the largest stored id is below the largest row id. *)
Theorem created_then_listed h h' f w r k :
  is_admin (session w) = true →
  is_readonly (session w) = false →
  idle w →
  accepted h f = Some r →
  new_rowid (host_rowid h) (table w) = Some k →
  let w1 := (serve h (ReqAdd POST f) w).2 in
  let new := inserted_row (host_utcnow h) k r in
  ∃ reservations,
    (serve h' ReqIndex w1).1 =
      Render "index.html" (ListingArgs reservations false true (host_today h')) ∧
    new ∈ reservations ∧
    StronglySorted by_check_in reservations ∧
    reservations ≡ₚ new :: table w ∧
    length reservations = S (length (table w)) ∧
    (serve h' ReqApiReservations w1).1 =
      Jsonify (JList ((λ r, JDict (to_dict r)) <$> place new (table w))) ∧
    (below_max (table w) →
       k = next_id (table w) ∧
       (serve h' ReqApiReservations w1).1 =
         Jsonify (JList (((λ r, JDict (to_dict r)) <$> table w)
                           ++ [JDict (to_dict new)]))).
Proof.
  intros Ha Hro Hidle Hacc Hk w1 new. subst w1.
  pose proof (add_post_run h f w Ha Hro Hidle) as Hrun. rewrite Hacc, Hk in Hrun.
  rewrite Hrun, index_run, api_run. simpl. fold new.
  exists (order_by_check_in (place new (table w))).
  rewrite Ha, Hro. simpl.
  assert (order_by_check_in (place new (table w)) ≡ₚ new :: table w) as Hperm.
  { by rewrite order_by_check_in_perm, place_perm. }
  split; [done|]. split; [|split; [|split; [|split; [|split]]]].
  - rewrite Hperm. by left.
  - apply order_by_check_in_sorted.
  - done.
  - by rewrite Hperm.
  - done.
  - intros Hb. rewrite new_rowid_below in Hk by done. simplify_eq.
    split; [done|]. subst new. by rewrite place_next, fmap_app.
Qed.

Lemma created_then_listed_witness :
  ∃ reservations,
    (serve some_host ReqIndex
       (serve some_host (ReqAdd POST smith_form) (admin_world [])).2).1 =
      Render "index.html" (ListingArgs reservations false true (Date 2024 1 1)) ∧
    smith_row ∈ reservations.
Proof.
  destruct (created_then_listed some_host some_host smith_form (admin_world [])
              (mkReservation None "A. Smith" "Airbnb" (Date 2024 3 1) (Date 2024 3 5)
                 (Some 2) (Some 0) (Some EmptyString) (Some EmptyString) None)
              1 eq_refl eq_refl (conj eq_refl (conj eq_refl eq_refl)) eq_refl eq_refl)
    as (rs & Hi & Hin & _).
  exists rs. exact (conj Hi Hin).
Defined.

(** X18: a reservation that has just been deleted is gone from both
    views: neither the list the listing hands its template nor the array
    of the JSON listing has an entry with the deleted id. *)
Theorem deleted_then_gone h h' i w row :
  is_admin (session w) = true →
  is_readonly (session w) = false →
  idle w →
  find (has_id i) (table w) = Some row →
  let w1 := (serve h (ReqDelete i) w).2 in
  ∃ reservations items,
    (serve h' ReqIndex w1).1 =
      Render "index.html" (ListingArgs reservations false true (host_today h')) ∧
    (∀ x, x ∈ reservations → id x ≠ Some i) ∧
    (serve h' ReqApiReservations w1).1 = Jsonify (JList items) ∧
    (∀ kvs, JDict kvs ∈ items → dict_get "id" kvs ≠ Some (JInt i)).
Proof.
  intros Ha Hro Hidle Hrow w1. subst w1.
  rewrite (delete_run h i w Ha Hro Hidle), Hrow, index_run, api_run. simpl.
  eexists _, _. rewrite Ha, Hro. simpl.
  split; [done|]. split; [|split; [done|]].
  - intros x Hx. rewrite order_by_check_in_perm in Hx.
    apply list_elem_of_filter in Hx as [Hx _]. unfold has_id in Hx.
    by apply bool_decide_eq_false in Hx.
  - intros kvs Hin. apply list_elem_of_fmap in Hin as (x & Heq & Hx).
    apply list_elem_of_filter in Hx as [Hx _]. unfold has_id in Hx.
    apply bool_decide_eq_false in Hx. simplify_eq.
    unfold dict_get. simpl. intros Hid. simplify_eq.
    destruct (id x); simpl in *; by simplify_eq.
Qed.

Lemma deleted_then_gone_witness :
  ∃ reservations items,
    (serve some_host ReqIndex
       (serve some_host (ReqDelete 1) (admin_world [smith_row])).2).1 =
      Render "index.html" (ListingArgs reservations false true (Date 2024 1 1)) ∧
    (∀ x, x ∈ reservations → id x ≠ Some 1) ∧
    (serve some_host ReqApiReservations
       (serve some_host (ReqDelete 1) (admin_world [smith_row])).2).1
      = Jsonify (JList items) ∧
    (∀ kvs, JDict kvs ∈ items → dict_get "id" kvs ≠ Some (JInt 1)).
Proof.
  exact (deleted_then_gone some_host some_host 1 (admin_world [smith_row]) smith_row
           eq_refl eq_refl (conj eq_refl (conj eq_refl eq_refl)) eq_refl).
Defined.

(** ** Notices *)

Section notices.
Context {A B : Type}.

Lemma notices_ret n (a : A) : notices n (mret a).
Proof. intros e w. exists []. simpl. rewrite app_nil_r. repeat split; [lia|done]. Qed.

Lemma notices_raise n (x : exn) : notices n (raise (A:=A) x).
Proof. by intros e w. Qed.

Lemma notices_ask n (f : env → A) : notices n (ask f).
Proof. intros e w. exists []. simpl. rewrite app_nil_r. repeat split; [lia|done]. Qed.

Lemma notices_bind0 n (m : M A) (f : A → M B) :
  notices 0 m → (∀ a, notices n (f a)) → notices n (m ≫= f).
Proof.
  intros Hm Hf e w. unfold mbind, M_bind. specialize (Hm e w).
  destruct (m e w) as [[x|a] w']; [done|].
  destruct Hm as (l & Hl & Hlen & _). destruct l; [|simpl in Hlen; lia].
  rewrite app_nil_r in Hl. specialize (Hf a e w'). by rewrite Hl in Hf.
Qed.

Lemma notices_bind_ret n (m : M A) (r : B) :
  notices n m → notices n (m ≫= λ _, mret r).
Proof.
  intros Hm e w. unfold mbind, M_bind. specialize (Hm e w).
  by destruct (m e w) as [[x|a] w'].
Qed.

Lemma notices_try n (m : M A) (k : exn → M A) :
  notices n m → (∀ x, notices n (k x)) → notices n (try_except m k).
Proof.
  intros Hm Hk e w. unfold try_except. specialize (Hm e w).
  destruct (m e w) as [[x|a] w']; [|done].
  specialize (Hk x e w'). by rewrite Hm in Hk.
Qed.
End notices.

Lemma notices_flash msg cat :
  cat = "success" ∨ cat = "error" → notices 1 (flash msg cat).
Proof.
  intros Hc e w. exists [(msg, cat)]. repeat split; [done|].
  by apply Forall_singleton.
Qed.

Lemma notices_prim {A} n (m : M A) :
  (∀ e w, flashes (m e w).2 = flashes w) → notices n m.
Proof.
  intros H e w. specialize (H e w). destruct (m e w) as [[x|a] w']; [done|].
  exists []. simpl in *. rewrite app_nil_r. repeat split; [done|lia|done].
Qed.

Lemma notices_session_get n k : notices n (session_get k).
Proof. by apply notices_prim. Qed.
Lemma notices_session_set n k v : notices n (session_set k v).
Proof. by apply notices_prim. Qed.
Lemma notices_session_pop n k : notices n (session_pop k).
Proof. by apply notices_prim. Qed.
Lemma notices_form_item n k : notices n (form_item k).
Proof. apply notices_prim. intros e w. unfold form_item. by case_match. Qed.
Lemma notices_form_get n k d : notices n (form_get k d).
Proof. by apply notices_prim. Qed.
Lemma notices_strptime_date n s : notices n (strptime_date s).
Proof. apply notices_prim. intros e w. unfold strptime_date. by case_match. Qed.
Lemma notices_int_of n s : notices n (int_of s).
Proof. apply notices_prim. intros e w. unfold int_of. by case_match. Qed.
Lemma notices_get_or_404 n i : notices n (get_or_404 i).
Proof. apply notices_prim. intros e w. unfold get_or_404. by repeat case_match. Qed.
Lemma notices_deref n i : notices n (deref i).
Proof. apply notices_prim. intros e w. unfold deref. by case_match. Qed.
Lemma notices_setattr n i u : notices n (setattr i u).
Proof. by apply notices_prim. Qed.
Lemma notices_db_add n r : notices n (db_add r).
Proof. by apply notices_prim. Qed.
Lemma notices_db_delete n i : notices n (db_delete i).
Proof. by apply notices_prim. Qed.
Lemma notices_db_commit n : notices n db_commit.
Proof. apply notices_prim. intros e w. unfold db_commit. by repeat case_match. Qed.
Lemma notices_str_of n x : notices n (str_of x).
Proof. by apply notices_prim. Qed.
Lemma notices_query_all n : notices n query_all.
Proof. by apply notices_prim. Qed.
Lemma notices_query_order_by_check_in n : notices n query_order_by_check_in.
Proof. by apply notices_prim. Qed.

Create HintDb notices.
#[global] Hint Resolve notices_session_get notices_session_set notices_session_pop
  notices_form_item notices_form_get notices_strptime_date notices_int_of
  notices_get_or_404 notices_deref notices_setattr notices_db_add notices_db_delete
  notices_db_commit notices_str_of notices_query_all
  notices_query_order_by_check_in : notices.

(** Walks through a view like [frame]: a bind whose first part is silent is
    split, a flash is counted, conditionals are taken both ways. *)
Ltac count_notices :=
  repeat first
    [ progress intros
    | apply notices_ret | apply notices_raise | apply notices_ask
    | apply notices_flash; solve [auto]
    | solve [auto with notices]
    | apply notices_bind0; [apply notices_str_of|]
    | apply notices_bind_ret
    | apply notices_bind0; [solve [auto with notices | apply notices_ask]|]
    | apply notices_try
    | case_match
    | progress cbv zeta ].

Lemma notices_require_admin {A} (f : A → M response) a :
  notices 1 (f a) → notices 1 (require_admin f a).
Proof. intros Hf. unfold require_admin. count_notices. Qed.

Lemma notices_check_readonly {A} (f : A → M response) a :
  notices 1 (f a) → notices 1 (check_readonly f a).
Proof. intros Hf. unfold check_readonly. count_notices. Qed.

Lemma notices_view rq : notices 1 (view_of rq).
Proof.
  destruct rq; unfold view_of.
  - unfold admin_login. count_notices.
  - unfold admin_logout. count_notices.
  - unfold readonly_access. count_notices.
  - unfold exit_readonly. count_notices.
  - unfold index. count_notices.
  - unfold login_select. count_notices.
  - apply notices_require_admin, notices_check_readonly.
    unfold add_reservation_view. count_notices.
  - apply notices_require_admin, notices_check_readonly.
    unfold edit_reservation_view. count_notices.
  - apply notices_require_admin, notices_check_readonly.
    unfold delete_reservation_view. count_notices.
  - unfold api_reservations. count_notices.
  - unfold calendar_view. count_notices.
Qed.

(** X19: every request gives at most one notice; the notice comes after
    the ones given before, which stay as they are, and its category is
    success or error; a request that is answered with an error status
    because its view raised gives none. *)
Theorem one_notice_per_request h rq w :
  ∃ l, flashes (serve h rq w).2 = flashes w ++ l ∧
       (length l ≤ 1)%nat ∧
       Forall known_category l ∧
       (∀ x w', view_of rq (env_of h rq) w = (inl x, w') →
          (serve h rq w).1 = Abort (status_of_exn x) ∧ l = []).
Proof.
  pose proof (notices_view rq (env_of h rq) w) as H. unfold serve.
  destruct (view_of rq (env_of h rq) w) as [[x|r] w'].
  - exists []. simpl. rewrite app_nil_r.
    split; [done|]. split; [lia|]. split; [done|].
    intros x' w'' Heq. by simplify_eq.
  - destruct H as (l & Hl & Hlen & Hcat). exists l. simpl.
    split; [done|]. split; [done|]. split; [done|].
    intros x' w'' Heq. by simplify_eq.
Qed.

Lemma one_notice_per_request_witness :
  ∃ l, flashes (serve some_host (ReqEdit 7 GET ∅) (admin_world [smith_row])).2 = [] ++ l ∧
       (serve some_host (ReqEdit 7 GET ∅) (admin_world [smith_row])).1 = Abort 404 ∧
       l = [].
Proof.
  destruct (one_notice_per_request some_host (ReqEdit 7 GET ∅) (admin_world [smith_row]))
    as (l & Hl & _ & _ & Hx).
  exists l. split; [exact Hl|].
  exact (Hx NotFound (admin_world [smith_row]) eq_refl).
Defined.

(** ** What the session cookie holds *)

Lemma serve_known_notices h rq w :
  Forall known_category (flashes w) →
  Forall known_category (flashes (serve h rq w).2).
Proof.
  intros Hw. pose proof (notices_view rq (env_of h rq) w) as H. unfold serve.
  destruct (view_of rq (env_of h rq) w) as [[x|r] w']; simpl.
  - by rewrite H.
  - destruct H as (l & -> & _ & Hl). by apply Forall_app.
Qed.

Lemma browse_known_notices trace w :
  Forall known_category (flashes w) →
  Forall known_category (flashes (browse trace w)).
Proof.
  revert w. induction trace as [|[h rq] rest IH]; intros w Hw; [done|].
  simpl. by apply IH, serve_known_notices.
Qed.

Lemma browse_flags_only trace w :
  flags_only (session w) → flags_only (session (browse trace w)).
Proof.
  revert w. induction trace as [|[h rq] rest IH]; intros w Hw; [done|].
  simpl. by apply IH, serve_flags_only.
Qed.

(** X12: whatever a client does from its first visit on, the session that
    Flask keeps for it holds at most three keys: the two flags of the
    views, each with the value [True] and never both at once, and the key
    [_flashes], which [flash] writes, with a list of notices that is not
    empty and whose categories are success or error.  Before the first
    notice the session holds nothing but the flags. *)
Theorem session_holds_only_flags trace t :
  let w := browse trace (fresh_world t) in
  flags_only (session w) ∧
  mode_exclusive (session w) ∧
  (∀ k v, flask_session w !! k = Some v →
     (k = "admin_logged_in" ∨ k = "readonly_mode") ∧ v = Flag true ∨
     k = "_flashes" ∧
     ∃ l, v = Notices l ∧ l ≠ [] ∧
          Forall (λ n, n.1 = "success" ∨ n.1 = "error") l) ∧
  (flashes w = [] →
     ∀ k v, flask_session w !! k = Some v →
       (k = "admin_logged_in" ∨ k = "readonly_mode") ∧ v = Flag true).
Proof.
  intros w.
  assert (flags_only (session w)) as Hflags.
  { apply browse_flags_only, flags_only_empty. }
  assert (∀ k v, (Flag <$> session w) !! k = Some v →
            (k = "admin_logged_in" ∨ k = "readonly_mode") ∧ v = Flag true) as Hfl.
  { intros k v Hk. rewrite lookup_fmap in Hk.
    destruct (session w !! k) as [b|] eqn:Hb; simpl in Hk; [|done].
    destruct (Hflags k b Hb) as [-> Hkey]. by simplify_eq. }
  assert (Forall known_category (flashes w)) as Hcat.
  { by apply browse_known_notices. }
  split; [done|].
  split; [apply reachable_exclusive, browse_reachable, reach_fresh|].
  unfold flask_session. destruct (flashes w) as [|n l] eqn:Hl.
  - split; [|done]. intros k v Hk. left. by apply Hfl.
  - split; [|done].
    intros k v Hk. apply lookup_insert_Some in Hk as [[<- <-]|[_ Hk]].
    + right. split; [done|]. eexists. split; [done|]. split; [done|].
      apply Forall_fmap. eapply Forall_impl; [exact Hcat|]. by intros [msg cat].
    + left. by apply Hfl.
Qed.

(** ** Storage failures and the way in *)

(** The update view on a stored id and a form that parses with its dates in
    order: all assignments run, and the commit decides. *)
Lemma edit_view_parsed h i f w row r :
  loaded w = ∅ →
  find (has_id i) (table w) = Some row →
  form_fields h f = Some r → ordered r = true →
  ∃ W,
    edit_reservation_view i (env_of h (ReqEdit i POST f)) w =
      match db_commit (env_of h (ReqEdit i POST f)) W with
      | (inr _, w') =>
          (inr (Redirect EpIndex),
           with_flashes (λ l, l ++ [("Reservation updated successfully!", "success")]) w')
      | (inl x, w') =>
          (inr (Redirect (EpEditReservation i)),
           with_flashes
             (λ l, l ++ [("Error updating reservation: " +:+ host_str h x, "error")]) w')
      end ∧
    loaded W !! i = Some (edited_row r row) ∧
    (∀ j, j ≠ i → loaded W !! j = None) ∧
    added W = added w ∧ deleted W = deleted w ∧ table W = table w ∧
    session W = session w ∧ flashes W = flashes w.
Proof.
  intros Hl Hrow Hf Ho.
  rewrite (edit_view_found _ _ _ row) by (by rewrite ?Hl, ?lookup_empty).
  destruct (form_fields_Some h f r Hf)
    as (cit & cot & adt & cht & ad & ch & Hg & Hp & Hci & Hcid & Hco & Hcod
        & Had & Hadv & Hch & Hchv & Hr).
  unfold edit_reservation_view, get_or_404. unfold_view.
  rewrite lookup_insert_eq. simpl.
  rewrite Hg, Hp, Hci. simpl. rewrite Hcid, Hco. simpl. rewrite Hcod, Had. simpl.
  rewrite Hadv, Hch. simpl. rewrite Hchv. simpl.
  rewrite !lookup_alter_eq, lookup_insert_eq. simpl.
  unfold ordered in Ho. apply negb_true_iff in Ho. rewrite Ho.
  match goal with |- context [db_commit ?e ?W0] => exists W0 end. split.
  - cbv [env_of]. by destruct (db_commit _ _) as [[x|[]] w'].
  - simpl. split; [|split; [|done]].
    + rewrite !lookup_alter_eq, lookup_insert_eq. simpl. f_equal.
      destruct r; simpl in *. by inversion Hr.
    + intros j Hj. rewrite !lookup_alter_ne, lookup_insert_ne, Hl by done.
      apply lookup_empty.
Qed.

(** A changed object that does not fit makes the commit fail. *)
Lemma commit_update_fails e w i o row :
  loaded w !! i = Some o →
  (∀ j, j ≠ i → loaded w !! j = None) →
  added w = [] → deleted w = [] →
  find (has_id i) (table w) = Some row →
  o ∉ table w → storable o = false →
  db_commit e w = (inl OverflowError, w).
Proof.
  intros Hi Hother Ha Hd Hrow Hnew Hst.
  destruct (commit_update_cases e w i o Hi Hother Ha Hd) as [H|[objs H]]; [done|].
  exfalso. rewrite commit_no_inserts in H by done. cbv zeta in H.
  destruct (forallb _ _) eqn:Hall; [|done].
  rewrite forallb_forall in Hall.
  apply find_some in Hrow as [Hin Hid].
  specialize (Hall o). rewrite Hst, bool_decide_eq_false_2 in Hall by done.
  assert (In o (flushed_row (loaded w) <$> table w)); [|naive_solver].
  apply list_elem_of_In, list_elem_of_fmap. exists row. split.
  - rewrite (flushed_row_one _ i o) by done. by rewrite Hid.
  - by apply list_elem_of_In.
Qed.

(** X20: an update of a stored id whose form parses under the parsers of
    the host, with its dates in order, but carries a count outside 64 bits
    fails at the commit: the table, whose rows all fit, is as before, the
    session is unchanged, and the answer is a redirect to the edit form of
    the same id with one notice of category error, whose text is the
    prefix of the view followed by [str] of the failure of the engine. *)
Theorem update_storage_failure h i f w row r :
  is_admin (session w) = true →
  is_readonly (session w) = false →
  idle w →
  Forall (λ x, storable x = true) (table w) →
  find (has_id i) (table w) = Some row →
  form_fields h f = Some r → ordered r = true → storable r = false →
  (serve h (ReqEdit i POST f) w).1 = Redirect (EpEditReservation i) ∧
  table (serve h (ReqEdit i POST f) w).2 = table w ∧
  session (serve h (ReqEdit i POST f) w).2 = session w ∧
  flashes (serve h (ReqEdit i POST f) w).2 =
    flashes w ++
    [("Error updating reservation: " +:+ host_str h OverflowError, "error")].
Proof.
  intros Ha Hro (Hl & Hadd & Hdel) Hfit Hrow Hf Ho Hst.
  rewrite serve_admin by done.
  destruct (edit_view_parsed h i f w row r Hl Hrow Hf Ho)
    as (W & -> & Hi & Hother & HaddW & HdelW & Ht & Hs & Hfl).
  rewrite (commit_update_fails _ W i (edited_row r row) row); simpl.
  - by rewrite Ht, Hs, Hfl.
  - done.
  - done.
  - by rewrite HaddW.
  - by rewrite HdelW.
  - by rewrite Ht.
  - rewrite Ht. intros Hin. rewrite Forall_forall in Hfit.
    specialize (Hfit _ Hin).
    assert (storable (edited_row r row) = storable r) by (by destruct r).
    congruence.
  - by destruct r.
Qed.

Lemma update_storage_failure_witness :
  let f := <["children" := "-9223372036854775809"]> smith_form in
  (serve some_host (ReqEdit 1 POST f) (admin_world [smith_row])).1
    = Redirect (EpEditReservation 1) ∧
  table (serve some_host (ReqEdit 1 POST f) (admin_world [smith_row])).2 = [smith_row].
Proof.
  intros f.
  assert (Forall (λ x, storable x = true) [smith_row]) as Hfit
    by (repeat constructor).
  pose proof (update_storage_failure some_host 1 f (admin_world [smith_row]) smith_row
                (mkReservation None "A. Smith" "Airbnb" (Date 2024 3 1) (Date 2024 3 5)
                   (Some 2) (Some (-9223372036854775809)) (Some EmptyString)
                   (Some EmptyString) None)
                eq_refl eq_refl (conj eq_refl (conj eq_refl eq_refl)) Hfit
                eq_refl eq_refl eq_refl eq_refl) as H.
  exact (conj (proj1 H) (proj1 (proj2 H))).
Defined.

(** X21: the way in works: a client whose session has no admin flag and
    who posts the configured password is redirected to the listing with
    the notice of the login, and the table is unchanged by the login
    itself; a create attempt that follows, with a form that is accepted and
    a row id [k] from the engine, is stored under that id, as the last row
    and under the next id while the largest stored id is below the largest
    row id. *)
Theorem login_then_create h h' pw f w r k :
  is_admin (session w) = false →
  pw !! "password" = Some (host_password h) →
  accepted h' f = Some r →
  new_rowid (host_rowid h') (table w) = Some k →
  let w1 := (serve h (ReqAdminLogin POST pw) w).2 in
  (serve h (ReqAdminLogin POST pw) w).1 = Redirect EpIndex ∧
  flashes w1 = flashes w ++ [("Logged in as Admin", "success")] ∧
  table w1 = table w ∧
  (serve h' (ReqAdd POST f) w1).1 = Redirect EpIndex ∧
  table (serve h' (ReqAdd POST f) w1).2 =
    place (inserted_row (host_utcnow h') k r) (table w) ∧
  (below_max (table w) →
     k = next_id (table w) ∧
     table (serve h' (ReqAdd POST f) w1).2 =
       table w ++ [inserted_row (host_utcnow h') k r]).
Proof.
  intros Ha Hpw Hacc Hk w1.
  assert (serve h (ReqAdminLogin POST pw) w =
            (Redirect EpIndex,
             settled (delete "readonly_mode" (<["admin_logged_in" := true]> (session w)))
               (flashes w ++ [("Logged in as Admin", "success")]) (table w))) as Hrun.
  { unfold serve, view_of, admin_login, session_get, session_set, session_pop.
    unfold is_admin in Ha. unfold_view. rewrite Ha. simpl. rewrite Hpw.
    by rewrite bool_decide_eq_true_2. }
  subst w1. rewrite Hrun. simpl.
  destruct (flags_after_login (session w)) as [Ha1 Hro1].
  pose proof (add_post_run h' f
                (settled (delete "readonly_mode" (<["admin_logged_in" := true]> (session w)))
                   (flashes w ++ [("Logged in as Admin", "success")]) (table w))
                Ha1 Hro1 (conj eq_refl (conj eq_refl eq_refl))) as Hadd.
  simpl in Hadd. rewrite Hacc, Hk in Hadd. rewrite Hadd. simpl.
  do 5 (split; [done|]).
  intros Hb. rewrite new_rowid_below in Hk by done. simplify_eq.
  split; [done|]. apply place_next.
Qed.

Lemma login_then_create_witness :
  table (serve some_host (ReqAdd POST smith_form)
           (serve some_host (ReqAdminLogin POST {[ "password" := "pw" ]})
              (World readonly_session [] [] ∅ [] [])).2).2 = [smith_row].
Proof.
  pose proof (login_then_create some_host some_host {[ "password" := "pw" ]} smith_form
                (World readonly_session [] [] ∅ [] [])
                (mkReservation None "A. Smith" "Airbnb" (Date 2024 3 1) (Date 2024 3 5)
                   (Some 2) (Some 0) (Some EmptyString) (Some EmptyString) None)
                1 eq_refl eq_refl eq_refl eq_refl) as H.
  exact (proj1 (proj2 (proj2 (proj2 (proj2 H))))).
Defined.
